(** * The speaker response orchestration of [src/services/speaker/base.ts]

    A shallow embedding of class [BaseSpeaker]: the methods [wakeUp],
    [unWakeUp], [response], the private [_response] with its inner closure
    [play], and [switchDefaultSpeaker].

    The methods are [async]; every [await] is sequential, so they are
    embedded in a state-and-exception monad that also records, in order,
    every call made on the device handles ([MiNA], [MiIOT]), every timed
    sleep, every call of the caller's [hasNewMsg] callback, every operation
    on the stream object and every write of [this.responding].  The two
    [while (true)] loops take a fuel argument; a run that exhausts it is
    reported as [OutOfFuel], never as a result.

    Calls on the logger are not device calls and are left out; the
    constructor and [initMiServices] only fill the fields the state below
    starts from. *)

From Stdlib Require Import ZArith NArith List Bool Lia String Ascii.
From stdpp Require Import base tactics option list numbers.
Import ListNotations.

Local Open Scope nat_scope.

(** ** JavaScript values *)

(** A JavaScript string is a sequence of UTF-16 code units. *)
Definition JsString := list N.

(** Code units of an ASCII literal. *)
Fixpoint js (s : string) : JsString :=
  match s with
  | EmptyString => []
  | String c r => N_of_ascii c :: js r
  end.

Arguments js : simpl never.

(** [!!x] for an optional string: [undefined] and the empty string are falsy. *)
Definition truthy (x : option JsString) : bool :=
  match x with
  | Some (_ :: _) => true
  | _ => false
  end.

(** Template-literal interpolation [`${x}`] of an optional string. *)
Definition interpolate (x : option JsString) : JsString :=
  match x with
  | Some s => s
  | None => js "undefined"
  end.

(** The values a device property or a status field can hold. *)
Inductive JsValue :=
| JUndefined
| JNull
| JBool (b : bool)
| JNumber (n : Z)
| JStr (s : JsString).

Definition truthy_value (v : JsValue) : bool :=
  match v with
  | JUndefined | JNull => false
  | JBool b => b
  | JNumber n => negb (n =? 0)%Z
  | JStr s => truthy (Some s)
  end.

(** [v === n] for a number [n]. *)
Definition strict_eq_number (v : JsValue) (n : Z) : bool :=
  match v with
  | JNumber m => (m =? n)%Z
  | _ => false
  end.

(** [v === s] for a string [s]. *)
Definition strict_eq_string (v : JsValue) (s : JsString) : bool :=
  match v with
  | JStr t => bool_decide (t = s)
  | _ => false
  end.

(** ** Text normalisation: [text.replace(/\n\s*\n/g, "\n").trim()] *)

Module Text.

Local Open Scope N_scope.

(** The class [\s] (and the characters [trim] strips): WhiteSpace and
    LineTerminator of ECMAScript. *)
Definition is_space (c : N) : bool :=
  (9 <=? c) && (c <=? 13)
  || (c =? 32) || (c =? 160) || (c =? 5760)
  || (8192 <=? c) && (c <=? 8202)
  || (c =? 8232) || (c =? 8233) || (c =? 8239) || (c =? 8287)
  || (c =? 12288) || (c =? 65279).

Definition newline : N := 10.

(** After a newline has been read, [blank_gap s] is the length of the
    prefix of [s] that the rest of the pattern, [\s*\n], consumes: the
    star is greedy, so the prefix ends at the last newline of the leading
    run of white space. *)
Fixpoint blank_gap (s : JsString) : option nat :=
  match s with
  | [] => None
  | c :: r =>
      if is_space c then
        match blank_gap r with
        | Some n => Some (S n)
        | None => if c =? newline then Some 1%nat else None
        end
      else None
  end.

(** Global replacement, left to right; [skip] counts the code units of
    the current match that are still to be dropped. *)
Fixpoint collapse (skip : nat) (s : JsString) : JsString :=
  match s with
  | [] => []
  | c :: r =>
      match skip with
      | S k => collapse k r
      | O =>
          if c =? newline then
            match blank_gap r with
            | Some n => newline :: collapse n r
            | None => c :: collapse 0 r
            end
          else c :: collapse 0 r
      end
  end.

Fixpoint trim_start (s : JsString) : JsString :=
  match s with
  | c :: r => if is_space c then trim_start r else s
  | [] => []
  end.

Definition trim (s : JsString) : JsString :=
  rev (trim_start (rev (trim_start s))).

(** [ttsText] of [_response]. *)
Definition normalize (s : JsString) : JsString := trim (collapse 0 s).

End Text.

(** ** The built-in [encodeURIComponent] *)

Module URI.

Local Open Scope N_scope.

(** The characters left as they are: letters, digits and [-_.!~*'()]. *)
Definition unreserved (c : N) : bool :=
  (65 <=? c) && (c <=? 90) || (97 <=? c) && (c <=? 122)
  || (48 <=? c) && (c <=? 57)
  || (c =? 45) || (c =? 95) || (c =? 46) || (c =? 33) || (c =? 126)
  || (c =? 42) || (c =? 39) || (c =? 40) || (c =? 41).

Definition hex_digit (d : N) : N := if d <? 10 then 48 + d else 55 + d.

(** [%XX] for one octet. *)
Definition escape (b : N) : JsString :=
  [37; hex_digit (b / 16); hex_digit (b mod 16)].

(** The UTF-8 octets of a code point. *)
Definition utf8 (cp : N) : list N :=
  if cp <? 128 then [cp]
  else if cp <? 2048 then [192 + cp / 64; 128 + cp mod 64]
  else if cp <? 65536 then
    [224 + cp / 4096; 128 + (cp / 64) mod 64; 128 + cp mod 64]
  else
    [240 + cp / 262144; 128 + (cp / 4096) mod 64;
     128 + (cp / 64) mod 64; 128 + cp mod 64].

Definition is_high (c : N) : bool := (55296 <=? c) && (c <=? 56319).
Definition is_low (c : N) : bool := (56320 <=? c) && (c <=? 57343).

(** [None] is the [URIError] thrown at an unpaired surrogate.  [high]
    holds a leading surrogate waiting for its trailing one. *)
Fixpoint encode (high : option N) (s : JsString) : option JsString :=
  match s with
  | [] => match high with None => Some [] | Some _ => None end
  | c :: r =>
      match high with
      | Some h =>
          if is_low c then
            let cp := (h - 55296) * 1024 + (c - 56320) + 65536 in
            (fun t => flat_map escape (utf8 cp) ++ t) <$> encode None r
          else None
      | None =>
          if is_high c then encode (Some c) r
          else if is_low c then None
          else if unreserved c then (fun t => c :: t) <$> encode None r
          else (fun t => flat_map escape (utf8 c) ++ t) <$> encode None r
      end
  end.

Definition encodeURIComponent (s : JsString) : option JsString :=
  encode None s.

End URI.

(** ** Data model *)

Inductive TTSProvider := xiaoai | doubao.

Definition is_xiaoai (p : TTSProvider) : bool :=
  match p with xiaoai => true | doubao => false end.

Inductive Gender := male | female.

Module Speaker.
(** The type [Speaker] of a catalog entry. *)
Record t := mk { name : JsString; gender : Gender; speaker : JsString }.
End Speaker.

Definition ActionCommand : Type := Z * Z.
Definition PropertyCommand : Type := Z * Z * Z.

(** A reference to a [StreamResponse] object in the store. *)
Definition StreamRef := nat.

(** The value of the caller's [hasNewMsg]: a function whose answer may
    change with time (the clock is the number of suspension points passed). *)
Definition Callback := nat -> bool.

Module Options.
(** The argument object of [response] and [_response]; [None] is an
    omitted member. *)
Record t := mk {
  tts : option TTSProvider;
  text : option JsString;
  stream : option StreamRef;
  audio : option JsString;
  speaker : option JsString;
  keepAlive : option bool;
  playSFX : option bool;
  hasNewMsg : option Callback
}.

Definition with_hasNewMsg (f : option Callback) (o : t) : t :=
  mk (tts o) (text o) (stream o) (audio o) (speaker o) (keepAlive o)
     (playSFX o) f.

(** [{...options, text: nextSentence, playSFX: false, keepAlive: false}] *)
Definition for_sentence (nextSentence : JsString) (o : t) : t :=
  mk (tts o) (Some nextSentence) (stream o) (audio o) (speaker o)
     (Some false) (Some false) (hasNewMsg o).
End Options.

(** Modelled from the spec: the class [StreamResponse] of [./stream], which
    is not part of the sources.  A cursor owns an ordered, finite sequence
    of text chunks plus a cancellation flag; [getNextResponse] produces
    "next chunk, no more" pairs and, once cancelled, reports no more with
    no chunk.  A [None] in [script] is a call at which the producer has
    nothing ready yet (a source that delivers chunks incrementally). *)
Module StreamResponse.
Record t := mk { script : list (option JsString); cancelled : bool }.

Definition getNextResponse (c : t) : (option JsString * bool) * t :=
  if cancelled c then ((None, true), c)
  else
    match script c with
    | [] => ((None, true), c)
    | x :: rest =>
        ((x, bool_decide (rest = [])), mk rest false)
    end.

Definition cancel (c : t) : t := mk (script c) true.

(** The chunks a cursor still has to deliver, those a caller acts on. *)
Definition pending (c : t) : list JsString :=
  if cancelled c then []
  else omap (fun x => if truthy x then x else None) (script c).
End StreamResponse.

(** The object [getStatus] resolves to; a [None] field is an absent key. *)
Record DeviceStatus := {
  status : option JsValue;
  media_type : option JsValue
}.

(** What [(await fetch(url)).json()] does. *)
Inductive FetchResult :=
| fetch_rejects
| json_array (l : list Speaker.t)
| json_other.

(** The fields of [BaseSpeaker] that the methods read or write. *)
Module BaseSpeaker.
Record t := mk {
  checkInterval : Z;
  tts : TTSProvider;
  ttsCommand : ActionCommand;
  wakeUpCommand : ActionCommand;
  playingCommand : option PropertyCommand;
  audioBeep : option JsString;
  responding : bool;
  _doubaoSpeakers : option (list Speaker.t);
  _defaultSpeaker : JsString
}.

Definition with_responding (b : bool) (x : t) : t :=
  mk (checkInterval x) (tts x) (ttsCommand x) (wakeUpCommand x)
     (playingCommand x) (audioBeep x) b (_doubaoSpeakers x)
     (_defaultSpeaker x).

Definition with_doubaoSpeakers (l : option (list Speaker.t)) (x : t) : t :=
  mk (checkInterval x) (tts x) (ttsCommand x) (wakeUpCommand x)
     (playingCommand x) (audioBeep x) (responding x) l
     (_defaultSpeaker x).

Definition with_defaultSpeaker (v : JsString) (x : t) : t :=
  mk (checkInterval x) (tts x) (ttsCommand x) (wakeUpCommand x)
     (playingCommand x) (audioBeep x) (responding x) (_doubaoSpeakers x)
     v.
End BaseSpeaker.

(** ** The environment *)

(** Everything the methods obtain from outside the class: the process
    environment, the imported constant, the segmentation
    policy of the stream module, and the behaviour of the device, of the
    network and of other sessions at each suspension point. *)
Record World := {
  TTS_DOUBAO : option JsString;
  SPEAKERS_DOUBAO : option JsString;
  kAreYouOK : JsString;
  (** The chunks [StreamResponse.createStreamResponse(text)] will deliver. *)
  segment : JsString -> list JsString;
  (** Whether the device call issued at a given time rejects. *)
  device_fails : nat -> bool;
  getStatus_reply : nat -> option DeviceStatus;
  getProperty_reply : nat -> JsValue;
  fetch_reply : nat -> FetchResult;
  (** Whether another session ends, clearing [responding], while this one
      is suspended at a given time. *)
  superseded_at : nat -> bool
}.

(** ** Events *)

Inductive PlaySite := boundary_chime | reply.
Inductive ActionSite := wake_up | un_wake_up | speak.

(** Calls on the device handles.  The site of a call is recorded with it:
    [MiNA.play] is used for the chime and for the reply, [MiIOT.doAction]
    by [wakeUp], by [unWakeUp] and for the native TTS. *)
Inductive DeviceCall :=
| MiNA_play (site : PlaySite) (url : option JsString)
| MiNA_pause
| MiNA_getStatus
| MiIOT_doAction (site : ActionSite) (cmd : ActionCommand)
    (arg : option JsString)
| MiIOT_getProperty (siid piid : Z).

(** What [response] and [_response] resolve to: ["break"] or [undefined]. *)
Inductive Result := res_break | res_undefined.

Inductive Event :=
| Device (c : DeviceCall)
| Sleep (ms : Z)
| HasNewMsgCalled (answer : bool)
| SetResponding (b : bool)
| GetNextResponse (r : StreamRef) (nextSentence : option JsString)
    (noMore : bool)
| Cancel (r : StreamRef)
| Fetch (url : JsString)
(** the call of [_response] with a given [text], and its resolution *)
| DispatchBegin (text : option JsString)
| DispatchEnd (res : Result).

(** ** State and monad *)

Record State := {
  this : BaseSpeaker.t;
  (** the object the caller passed to [response] *)
  options : Options.t;
  (** the stream objects, by reference *)
  streams : list StreamResponse.t;
  clock : nat
}.

Definition set_this (f : BaseSpeaker.t -> BaseSpeaker.t) (s : State) : State :=
  {| this := f (this s); options := options s; streams := streams s;
     clock := clock s |}.

Definition set_options (f : Options.t -> Options.t) (s : State) : State :=
  {| this := this s; options := f (options s); streams := streams s;
     clock := clock s |}.

Definition set_streams (f : list StreamResponse.t -> list StreamResponse.t)
    (s : State) : State :=
  {| this := this s; options := options s; streams := f (streams s);
     clock := clock s |}.

Inductive JsError := DeviceError | URIError | FetchError | TypeError.

Inductive Outcome (A : Type) :=
| Returned (a : A) (s : State) (evs : list Event)
| Thrown (e : JsError) (s : State) (evs : list Event)
| OutOfFuel (s : State) (evs : list Event).
Arguments Returned {A}.
Arguments Thrown {A}.
Arguments OutOfFuel {A}.

Definition M (A : Type) : Type := State -> Outcome A.

Definition final {A} (o : Outcome A) : State :=
  match o with
  | Returned _ s _ | Thrown _ s _ | OutOfFuel s _ => s
  end.

Definition events {A} (o : Outcome A) : list Event :=
  match o with
  | Returned _ _ evs | Thrown _ _ evs | OutOfFuel _ evs => evs
  end.

Definition value {A} (o : Outcome A) : option A :=
  match o with
  | Returned a _ _ => Some a
  | _ => None
  end.

Definition prepend {A} (evs : list Event) (o : Outcome A) : Outcome A :=
  match o with
  | Returned a s e => Returned a s (evs ++ e)
  | Thrown x s e => Thrown x s (evs ++ e)
  | OutOfFuel s e => OutOfFuel s (evs ++ e)
  end.

Definition ret {A} (a : A) : M A := fun s => Returned a s [].

Definition bind {A B} (m : M A) (k : A -> M B) : M B := fun s =>
  match m s with
  | Returned a s1 e1 => prepend e1 (k a s1)
  | Thrown x s1 e1 => Thrown x s1 e1
  | OutOfFuel s1 e1 => OutOfFuel s1 e1
  end.

Declare Scope js_scope.
Delimit Scope js_scope with js.
Notation "x <- m ;; k" := (bind m (fun x => k))
  (at level 62, m at next level, right associativity) : js_scope.
Notation "m ;;; k" := (bind m (fun _ => k))
  (at level 62, right associativity) : js_scope.
Local Open Scope js_scope.

Definition throw {A} (e : JsError) : M A := fun s => Thrown e s [].
Definition out_of_fuel {A} : M A := fun s => OutOfFuel s [].
Definition emit (e : Event) : M unit := fun s => Returned tt s [e].
Definition get : M State := fun s => Returned s s [].
Definition modify (f : State -> State) : M unit := fun s => Returned tt (f s) [].
Definition when (b : bool) (m : M unit) : M unit := if b then m else ret tt.

(** ** Primitive effects *)

Section Methods.

Context (w : World).

(** A suspension point: time advances, and another session may end
    meanwhile, clearing the shared flag. *)
Definition suspended (s : State) : State :=
  {| this := if superseded_at w (clock s)
             then BaseSpeaker.with_responding false (this s)
             else this s;
     options := options s; streams := streams s;
     clock := S (clock s) |}.

Definition suspend : M unit := fun s => Returned tt (suspended s) [].

(** An awaited call on a device handle. *)
Definition device (c : DeviceCall) : M nat :=
  s <- get ;;
  emit (Device c) ;;;
  suspend ;;;
  if device_fails w (clock s) then throw DeviceError else ret (clock s).

Definition sleep (ms : Z) : M unit := emit (Sleep ms) ;;; suspend.

Definition set_responding (b : bool) : M unit :=
  emit (SetResponding b) ;;;
  modify (set_this (BaseSpeaker.with_responding b)).

(** [this.MiNA!.play({ url: this.audioBeep })] *)
Definition play_beep : M unit :=
  s <- get ;;
  device (MiNA_play boundary_chime (BaseSpeaker.audioBeep (this s))) ;;;
  ret tt.

Definition wakeUp : M unit :=
  s <- get ;;
  device (MiIOT_doAction wake_up (BaseSpeaker.wakeUpCommand (this s)) None) ;;;
  ret tt.

Definition unWakeUp : M unit :=
  device MiNA_pause ;;;
  s <- get ;;
  device (MiIOT_doAction un_wake_up (BaseSpeaker.ttsCommand (this s))
            (Some (kAreYouOK w))) ;;;
  ret tt.

(** [stream.getNextResponse()] on the object a reference points to. *)
Definition getNextResponse (r : StreamRef) : M (option JsString * bool) :=
  s <- get ;;
  match streams s !! r with
  | None => throw TypeError
  | Some c =>
      let '(nextSentence, noMore, c') := StreamResponse.getNextResponse c in
      emit (GetNextResponse r nextSentence noMore) ;;;
      modify (set_streams (fun h => <[r := c']> h)) ;;;
      ret (nextSentence, noMore)
  end.

(** [stream.cancel()] *)
Definition cancel (r : StreamRef) : M unit :=
  s <- get ;;
  match streams s !! r with
  | None => throw TypeError
  | Some c =>
      emit (Cancel r) ;;;
      modify (set_streams (fun h => <[r := StreamResponse.cancel c]> h))
  end.

(** Modelled from the spec: [StreamResponse.createStreamResponse(text)] of
    [./stream], which is not part of the sources; it makes a new cursor
    over the chunks of [text]. *)
Definition createStreamResponse (text : JsString) : M StreamRef :=
  s <- get ;;
  modify (set_streams (fun h =>
    h ++ [StreamResponse.mk (map Some (segment w text)) false])) ;;;
  ret (length (streams s)).

(** ** The playback monitor (the inner loop of [play]) *)

(** The initial value of [playing] on every tick. *)
Definition idle : DeviceStatus :=
  {| status := Some (JStr (js "idle")); media_type := None |}.

Definition playing_only : DeviceStatus :=
  {| status := Some (JStr (js "playing")); media_type := None |}.

(** [{ ...a, ...b }] *)
Definition spread (a b : DeviceStatus) : DeviceStatus :=
  {| status := match status b with Some v => Some v | None => status a end;
     media_type :=
       match media_type b with Some v => Some v | None => media_type a end |}.

(** [playing.status === "playing"] *)
Definition is_playing (p : DeviceStatus) : bool :=
  match status p with
  | Some v => strict_eq_string v (js "playing")
  | None => false
  end.

(** Truthiness of [playing.media_type]. *)
Definition has_media_type (p : DeviceStatus) : bool :=
  match media_type p with
  | Some v => truthy_value v
  | None => false
  end.

(** Lines 260-278: the playback state derived on one tick. *)
Definition poll : M DeviceStatus :=
  s <- get ;;
  match BaseSpeaker.playingCommand (this s) with
  | Some (siid, piid, marker) =>
      t <- device (MiIOT_getProperty siid piid) ;;
      ret (if strict_eq_number (getProperty_reply w t) marker
           then playing_only else idle)
  | None =>
      t <- device MiNA_getStatus ;;
      ret (match getStatus_reply w t with
           | Some res => spread idle res
           | None => idle
           end)
  end.

(** The local closure [hasNewMsg] of [_response]:
    [options.hasNewMsg?.()], falsy when the member is absent. *)
Definition call_hasNewMsg (o : Options.t) : M bool :=
  match Options.hasNewMsg o with
  | None => ret false
  | Some f =>
      s <- get ;;
      emit (HasNewMsgCalled (f (clock s))) ;;;
      ret (f (clock s))
  end.

Inductive Cause := by_caller | by_flag | by_device.

(** The condition of lines 279-283,
    [hasNewMsg() || !this.responding ||
     (playing.status === "playing" && playing.media_type)],
    with the operand at which [||] stops. *)
Definition interruption (newMsg responding : bool) (playing : DeviceStatus)
  : option Cause :=
  if newMsg then Some by_caller
  else if negb responding then Some by_flag
  else if is_playing playing && has_media_type playing then Some by_device
  else None.

Inductive Tick := tick_break | tick_done | tick_again.

(** One iteration of the [while (true)] of lines 259-291. *)
Definition monitor_tick (o : Options.t) : M Tick :=
  playing <- poll ;;
  flag <- call_hasNewMsg o ;;
  s <- get ;;
  match interruption flag (BaseSpeaker.responding (this s)) playing with
  | Some _ => ret tick_break
  | None =>
      if negb (is_playing playing) then ret tick_done
      else sleep (BaseSpeaker.checkInterval (this s)) ;;; ret tick_again
  end.

(** The loop; [true] is the early [return "break"]. *)
Fixpoint monitor (fuel : nat) (o : Options.t) : M bool :=
  match fuel with
  | O => out_of_fuel
  | S fuel' =>
      t <- monitor_tick o ;;
      match t with
      | tick_break => ret true
      | tick_done => ret false
      | tick_again => monitor fuel' o
      end
  end.

(** ** [_response] *)

Inductive PlayArgs := args_url (url : JsString) | args_tts (tts : JsString).

(** The closure [play] of lines 241-300, with the variables of
    [_response] it captures. *)
Definition play (fuel : nat) (o : Options.t)
    (playSFX ttsNotXiaoai keepAlive : bool) (args : PlayArgs) : M Result :=
  s <- get ;;
  when (playSFX && truthy (BaseSpeaker.audioBeep (this s))) play_beep ;;;
  when ttsNotXiaoai unWakeUp ;;;
  s <- get ;;
  match args with
  | args_tts (_ :: _ as t) =>
      device (MiIOT_doAction speak (BaseSpeaker.ttsCommand (this s)) (Some t))
  | args_tts [] => device (MiNA_play reply None)
  | args_url u => device (MiNA_play reply (Some u))
  end ;;;
  sleep 3000 ;;;
  interrupted <- monitor fuel o ;;
  if interrupted : bool then ret res_break
  else
    s <- get ;;
    when (playSFX && truthy (BaseSpeaker.audioBeep (this s))) play_beep ;;;
    when keepAlive wakeUp ;;;
    ret res_undefined.

(** The locals [tts], [ttsNotXiaoai] and [playSFX] of [_response]
    (lines 218-238). *)
Definition _response_tts (o : Options.t) (s : State) : TTSProvider :=
  default (BaseSpeaker.tts (this s)) (Options.tts o).

Definition _response_ttsNotXiaoai (o : Options.t) (s : State) : bool :=
  negb (bool_decide (is_Some (Options.stream o))) && truthy (Options.text o)
  && negb (truthy (Options.audio o)) && negb (is_xiaoai (_response_tts o s)).

Definition _response_playSFX (o : Options.t) (s : State) : bool :=
  _response_ttsNotXiaoai o s && default true (Options.playSFX o).

Definition _response (fuel : nat) (o : Options.t) : M Result :=
  emit (DispatchBegin (Options.text o)) ;;;
  s <- get ;;
  let text := Options.text o in
  let audio := Options.audio o in
  let keepAlive := default false (Options.keepAlive o) in
  let tts := _response_tts o s in
  let speaker :=
    default (BaseSpeaker._defaultSpeaker (this s)) (Options.speaker o) in
  let ttsText := Text.normalize <$> text in
  let ttsNotXiaoai := _response_ttsNotXiaoai o s in
  let playSFX := _response_playSFX o s in
  res <-
    (if truthy audio then
       play fuel o playSFX ttsNotXiaoai keepAlive (args_url (default [] audio))
     else if truthy ttsText then
       match tts with
       | doubao =>
           match URI.encodeURIComponent (default [] ttsText) with
           | None => throw URIError
           | Some _text =>
               play fuel o playSFX ttsNotXiaoai keepAlive
                 (args_url (interpolate (TTS_DOUBAO w) ++ js "?speaker="
                            ++ speaker ++ js "&text=" ++ _text))
           end
       | xiaoai =>
           play fuel o playSFX ttsNotXiaoai keepAlive
             (args_tts (default [] ttsText))
       end
     else ret res_undefined) ;;
  emit (DispatchEnd res) ;;;
  ret res.

(** ** [response] *)

(** [this.checkIfHasNewMsg().hasNewMsg] *)
Definition default_hasNewMsg : Callback := fun _ => false.

(** [options.hasNewMsg ??= this.checkIfHasNewMsg().hasNewMsg] *)
Definition assign_default_hasNewMsg (o : Options.t) : Options.t :=
  match Options.hasNewMsg o with
  | Some _ => o
  | None => Options.with_hasNewMsg (Some default_hasNewMsg) o
  end.

Inductive Step :=
| step_exit (res : Result)
| step_again (_resp : JsString) (res : Result).

(** One iteration of the [while (true)] of lines 159-200.  [_resp] is
    the local string [_response] and [res] the variable [res]; the
    iteration ends at a [break] ([step_exit]) or at the [sleep] of line
    199 ([step_again]). *)
Definition stream_iteration (mfuel : nat) (r : StreamRef)
    (playSFX ttsNotXiaoai keepAlive : bool)
    (_resp : JsString) (res : Result) : M Step :=
  reply <- getNextResponse r ;;
  let nextSentence := fst reply in
  let noMore := snd reply in
  sent <-
    (if truthy nextSentence then
       let sentence := default [] nextSentence in
       when (length _resp <? 1)
         (when playSFX play_beep ;;; when ttsNotXiaoai unWakeUp) ;;;
       s <- get ;;
       res' <- _response mfuel (Options.for_sentence sentence (options s)) ;;
       match res' with
       | res_break => cancel r ;;; ret None
       | res_undefined => ret (Some (_resp ++ sentence, res'))
       end
     else ret (Some (_resp, res))) ;;
  match sent with
  | None => ret (step_exit res_break)
  | Some (_resp', res') =>
      if noMore : bool then
        when (0 <? length _resp') (when playSFX play_beep) ;;;
        when keepAlive wakeUp ;;;
        ret (step_exit res')
      else
        s <- get ;;
        sleep (BaseSpeaker.checkInterval (this s)) ;;;
        ret (step_again _resp' res')
  end.

Fixpoint streamLoop (fuel mfuel : nat) (r : StreamRef)
    (playSFX ttsNotXiaoai keepAlive : bool)
    (_resp : JsString) (res : Result) : M Result :=
  match fuel with
  | O => out_of_fuel
  | S fuel' =>
      st <- stream_iteration mfuel r playSFX ttsNotXiaoai keepAlive _resp res ;;
      match st with
      | step_exit res' => ret res'
      | step_again _resp' res' =>
          streamLoop fuel' mfuel r playSFX ttsNotXiaoai keepAlive _resp' res'
      end
  end.

(** The local [tts] of [response] after lines 141-144. *)
Definition response_tts (s : State) : TTSProvider :=
  if negb (truthy (TTS_DOUBAO w)) then xiaoai
  else default (BaseSpeaker.tts (this s)) (Options.tts (options s)).

(** The local [ttsNotXiaoai] of [response] (line 146). *)
Definition response_ttsNotXiaoai (s : State) : bool :=
  (bool_decide (is_Some (Options.stream (options s)))
   || truthy (Options.text (options s)))
  && negb (truthy (Options.audio (options s)))
  && negb (is_xiaoai (response_tts s)).

Definition response (fuel : nat) : M Result :=
  s <- get ;;
  let text := Options.text (options s) in
  let audio := Options.audio (options s) in
  let stream := Options.stream (options s) in
  let playSFX := default true (Options.playSFX (options s)) in
  let keepAlive := default false (Options.keepAlive (options s)) in
  modify (set_options assign_default_hasNewMsg) ;;;
  let ttsNotXiaoai := response_ttsNotXiaoai s in
  let playSFX := ttsNotXiaoai && playSFX in
  stream <-
    (if ttsNotXiaoai && negb (bool_decide (is_Some stream)) then
       r <- createStreamResponse (default [] text) ;; ret (Some r)
     else ret stream) ;;
  set_responding true ;;;
  res <-
    match stream with
    | Some r =>
        streamLoop fuel fuel r playSFX ttsNotXiaoai keepAlive [] res_undefined
    | None =>
        s <- get ;;
        _response fuel (options s)
    end ;;
  set_responding false ;;;
  ret res.

(** ** [switchDefaultSpeaker] *)

(** [(await fetch(speakersAPI)).json()] *)
Definition fetch_json (url : JsString) : M FetchResult :=
  s <- get ;;
  emit (Fetch url) ;;;
  suspend ;;;
  match fetch_reply w (clock s) with
  | fetch_rejects => throw FetchError
  | res => ret res
  end.

(** The callback of [find]:
    [(e) => e.name === speaker || e.speaker === speaker] *)
Definition matches (speaker : JsString) (e : Speaker.t) : bool :=
  bool_decide (Speaker.name e = speaker)
  || bool_decide (Speaker.speaker e = speaker).

Definition switchDefaultSpeaker (speaker : JsString) : M bool :=
  s <- get ;;
  let speakersAPI := SPEAKERS_DOUBAO w in
  when (negb (bool_decide (is_Some (BaseSpeaker._doubaoSpeakers (this s))))
        && truthy speakersAPI)
    (res <- fetch_json (default [] speakersAPI) ;;
     match res with
     | json_array l =>
         modify (set_this (BaseSpeaker.with_doubaoSpeakers (Some l)))
     | _ => ret tt
     end) ;;;
  s <- get ;;
  match BaseSpeaker._doubaoSpeakers (this s) with
  | None => ret false
  | Some speakers =>
      let target := List.find (matches speaker) speakers in
      match target with
      | Some e =>
          modify (set_this (BaseSpeaker.with_defaultSpeaker (Speaker.speaker e)))
      | None => ret tt
      end ;;;
      s <- get ;;
      ret (match target with
           | Some e =>
               bool_decide (BaseSpeaker._defaultSpeaker (this s)
                            = Speaker.speaker e)
           | None => false
           end)
  end.

End Methods.

Arguments suspended : simpl never.

(** ** Observations on a run *)

(** The device calls among the events of a run. *)
Definition device_calls (evs : list Event) : list DeviceCall :=
  omap (fun e => match e with Device c => Some c | _ => None end) evs.

(** Playbacks: the chime, and a reply handed to the device (a URL played
    or the native TTS action). *)
Definition site_of (e : Event) : option PlaySite :=
  match e with
  | Device (MiNA_play site _) => Some site
  | Device (MiIOT_doAction speak _ _) => Some reply
  | _ => None
  end.

Definition sites (evs : list Event) : list PlaySite := omap site_of evs.

Definition is_chime (e : Event) : bool :=
  match e with
  | Device (MiNA_play boundary_chime _) => true
  | _ => false
  end.

Definition is_chime_site (p : PlaySite) : bool :=
  match p with boundary_chime => true | reply => false end.

(** The number of times the boundary chime is played. *)
Definition chimes (evs : list Event) : nat :=
  length (List.filter is_chime_site (sites evs)).

(** A call of [getNextResponse] that produced a chunk. *)
Definition is_chunk (e : Event) : bool :=
  match e with
  | GetNextResponse _ x _ => truthy x
  | _ => false
  end.

Definition produced (evs : list Event) : bool := existsb is_chunk evs.

(** The texts [_response] was called with, in order. *)
Definition dispatched (evs : list Event) : list JsString :=
  omap (fun e => match e with DispatchBegin (Some t) => Some t | _ => None end)
       evs.

Definition flag_writes (evs : list Event) : list bool :=
  omap (fun e => match e with SetResponding b => Some b | _ => None end) evs.

(** Events of the device protocol proper: calls, sleeps and the caller's
    check. *)
Definition io_event (e : Event) : bool :=
  match e with
  | Device _ | Sleep _ | HasNewMsgCalled _ => true
  | _ => false
  end.

Definition chimeless (e : Event) : bool := io_event e && negb (is_chime e).

(** Everything a session does between its two writes of the flag. *)
Definition session_event (e : Event) : bool :=
  match e with
  | SetResponding _ | Fetch _ => false
  | _ => true
  end.

(** *** The discipline of a streaming session

    [ready]: no dispatch in flight; [pulled c]: the cursor has just
    delivered [c]; [in_flight]: [_response] has been called and has not
    resolved; [interrupted]: it resolved to ["break"]; [stopped]: the
    cursor has been cancelled. *)
Inductive Phase :=
| ready
| pulled (chunk : JsString)
| in_flight
| interrupted
| stopped.

Definition seq_step (r : StreamRef) (q : Phase) (e : Event) : option Phase :=
  match e with
  | GetNextResponse r' x _ =>
      match q with
      | ready =>
          if bool_decide (r' = r)
          then Some (if truthy x then pulled (default [] x) else ready)
          else None
      | _ => None
      end
  | DispatchBegin t =>
      match q with
      | pulled c => if bool_decide (t = Some c) then Some in_flight else None
      | _ => None
      end
  | DispatchEnd res =>
      match q with
      | in_flight =>
          Some (match res with res_break => interrupted | res_undefined => ready end)
      | _ => None
      end
  | Cancel r' =>
      match q with
      | interrupted => if bool_decide (r' = r) then Some stopped else None
      | _ => None
      end
  | Device _ | Sleep _ | HasNewMsgCalled _ =>
      match q with
      | interrupted | stopped => None
      | _ => Some q
      end
  | SetResponding _ | Fetch _ => Some q
  end.

Fixpoint run_phases (r : StreamRef) (q : Phase) (evs : list Event)
  : option Phase :=
  match evs with
  | [] => Some q
  | e :: rest =>
      match seq_step r q e with
      | Some q' => run_phases r q' rest
      | None => None
      end
  end.

(** A trace in which chunks are dispatched one at a time, each the chunk
    the cursor has just delivered, and nothing is pulled, dispatched or
    played once a dispatch has resolved to ["break"]. *)
Definition sequenced (r : StreamRef) (evs : list Event) : bool :=
  bool_decide (is_Some (run_phases r ready evs)).

(** ** Frames *)

(** What the device protocol leaves alone: the caller's object, the stream
    objects and every field of [this] but [responding]. *)
Definition stable (s s' : State) : Prop :=
  options s' = options s /\ streams s' = streams s /\
  BaseSpeaker.with_responding false (this s')
  = BaseSpeaker.with_responding false (this s).

Definition same_options (s s' : State) : Prop :=
  options s' = options s /\
  BaseSpeaker.with_responding false (this s')
  = BaseSpeaker.with_responding false (this s).

(** [m] moves the state along [R] and emits only events in [p], however it
    ends. *)
Definition only (R : State -> State -> Prop) (p : Event -> bool) {A}
    (m : M A) : Prop :=
  forall s, R s (final (m s)) /\ forallb p (events (m s)) = true.

(** The catalog [switchDefaultSpeaker] searches: the cached one, or the
    list fetched by this very call. *)
Definition catalog_loaded (w : World) (s : State) (l : list Speaker.t) : Prop :=
  BaseSpeaker._doubaoSpeakers (this s) = Some l
  \/ (BaseSpeaker._doubaoSpeakers (this s) = None
      /\ truthy (SPEAKERS_DOUBAO w) = true
      /\ fetch_reply w (clock s) = json_array l).

(** ** Concrete scenarios *)

Module Scenario.

(** A speaker as the constructor leaves it, with a chime configured. *)
Definition speaker0 : BaseSpeaker.t :=
  BaseSpeaker.mk 1000 xiaoai (5, 1)%Z (5, 3)%Z None (Some (js "beep.mp3"))
    false None (js "zh_female_maomao_conversation_wvae_bigtts").

(** The same with a playing-state property command. *)
Definition speaker_with_property : BaseSpeaker.t :=
  BaseSpeaker.mk 1000 xiaoai (5, 1)%Z (5, 3)%Z (Some (3, 1, 1)%Z)
    (Some (js "beep.mp3")) true None
    (js "zh_female_maomao_conversation_wvae_bigtts").

(** A request with only [text] and [tts]. *)
Definition say (tts : option TTSProvider) (text : JsString) : Options.t :=
  Options.mk tts (Some text) None None None None None None.

Definition start (this : BaseSpeaker.t) (o : Options.t) : State :=
  {| this := this; options := o; streams := []; clock := 0 |}.

Definition catalog : list Speaker.t :=
  [Speaker.mk (js "Maomao") female (js "zh_female_maomao_x")].

(** One sentence per line, blank lines dropped. *)
Fixpoint lines (cur : JsString) (s : JsString) : list JsString :=
  match s with
  | [] => match Text.trim cur with [] => [] | l => [l] end
  | c :: r =>
      if (c =? Text.newline)%N then
        match Text.trim cur with
        | [] => lines [] r
        | l => l :: lines [] r
        end
      else lines (cur ++ [c]) r
  end.

(** Both endpoints configured; the device answers every call, reports
    no playback, and no other session interferes. *)
Definition calm : World :=
  {| TTS_DOUBAO := Some (js "http://tts.local/api");
     SPEAKERS_DOUBAO := Some (js "http://tts.local/speakers");
     kAreYouOK := js "are you ok";
     segment := lines [];
     device_fails := fun _ => false;
     getStatus_reply := fun _ => None;
     getProperty_reply := fun _ => JUndefined;
     fetch_reply := fun _ => json_array catalog;
     superseded_at := fun _ => false |}.

(** No vendor endpoint in the environment. *)
Definition no_vendor : World :=
  {| TTS_DOUBAO := None;
     SPEAKERS_DOUBAO := None;
     kAreYouOK := js "are you ok";
     segment := lines [];
     device_fails := fun _ => false;
     getStatus_reply := fun _ => None;
     getProperty_reply := fun _ => JUndefined;
     fetch_reply := fun _ => json_other;
     superseded_at := fun _ => false |}.

(** The device rejects every call and the catalog fetch rejects. *)
Definition failing : World :=
  {| TTS_DOUBAO := Some (js "http://tts.local/api");
     SPEAKERS_DOUBAO := Some (js "http://tts.local/speakers");
     kAreYouOK := js "are you ok";
     segment := lines [];
     device_fails := fun _ => true;
     getStatus_reply := fun _ => None;
     getProperty_reply := fun _ => JUndefined;
     fetch_reply := fun _ => fetch_rejects;
     superseded_at := fun _ => false |}.

(** The device has started music of its own. *)
Definition music : World :=
  {| TTS_DOUBAO := Some (js "http://tts.local/api");
     SPEAKERS_DOUBAO := Some (js "http://tts.local/speakers");
     kAreYouOK := js "are you ok";
     segment := lines [];
     device_fails := fun _ => false;
     getStatus_reply := fun _ =>
       Some {| status := Some (JStr (js "playing"));
               media_type := Some (JStr (js "music")) |};
     getProperty_reply := fun _ => JNumber 1;
     fetch_reply := fun _ => json_array catalog;
     superseded_at := fun _ => false |}.

(** A caller whose check reports a new message at once. *)
Definition impatient (o : Options.t) : Options.t :=
  Options.with_hasNewMsg (Some (fun _ => true)) o.



End Scenario.

(** ** The three stages of [response]

    [session_ref]: the stream the session works on, if any (the caller's,
    or the one line 151 creates); [session_entry]: the state in which the
    reply starts, after line 155; [session_body]: lines 157-203. *)
Definition session_ref (w : World) (s : State) : option StreamRef :=
  match Options.stream (options s) with
  | Some r => Some r
  | None =>
      if response_ttsNotXiaoai w s then Some (length (streams s)) else None
  end.

Definition session_entry (w : World) (s : State) : State :=
  let s0 := set_options assign_default_hasNewMsg s in
  let s1 :=
    if response_ttsNotXiaoai w s
       && negb (bool_decide (is_Some (Options.stream (options s))))
    then
      set_streams (fun h =>
        h ++ [StreamResponse.mk
                (map Some (segment w (default [] (Options.text (options s)))))
                false]) s0
    else s0 in
  set_this (BaseSpeaker.with_responding true) s1.

Definition session_body (w : World) (fuel : nat) (s : State) : M Result :=
  match session_ref w s with
  | Some r =>
      streamLoop w fuel fuel r
        (response_ttsNotXiaoai w s
         && default true (Options.playSFX (options s)))
        (response_ttsNotXiaoai w s)
        (default false (Options.keepAlive (options s)))
        [] res_undefined
  | None => fun s2 => _response w fuel (options s2) s2
  end.

Module Requests.
Import Scenario.

(** [{text: "Hello.\n\nWorld.", tts: "doubao"}] *)
Definition hello_world : Options.t :=
  say (Some doubao) (js "Hello." ++ [10; 10]%N ++ js "World.").

(** [{text: " ", tts: "doubao", keepAlive: true}]: a text that is not
    empty but normalises to the empty string. *)
Definition blank_keep_alive : Options.t :=
  Options.mk (Some doubao) (Some (js " ")) None None None (Some true) None
    None.

(** [{text: "Hi"}] with the provider left to the configuration. *)
Definition hi : Options.t := say None (js "Hi").
End Requests.

(** ** The traces of one iteration of the streaming loop

    What follows the call of [getNextResponse] that delivered [x] and
    [noMore], and what the iteration ends with ([None]: it did not end, a
    call threw or the monitor's fuel ran out). *)

(** The chime of lines 162-166, played when nothing has been said yet. *)
Definition opening_sites (playSFX : bool) (_resp : JsString) : list PlaySite :=
  if (length _resp <? 1) && playSFX then [boundary_chime] else [].

(** The chime of lines 186-191, played when something has been said. *)
Definition closing_sites (playSFX : bool) (_resp : JsString) : list PlaySite :=
  if (0 <? length _resp) && playSFX then [boundary_chime] else [].

Inductive iteration_trace (r : StreamRef) (playSFX : bool) (_resp : JsString)
    (res : Result) (x : option JsString) (noMore : bool)
  : list Event -> option Step -> Prop :=
| it_idle_again ms :
    truthy x = false -> noMore = false ->
    iteration_trace r playSFX _resp res x noMore
      [Sleep ms] (Some (step_again _resp res))
| it_idle_exit post :
    truthy x = false -> noMore = true ->
    forallb io_event post = true ->
    sites post = closing_sites playSFX _resp ->
    iteration_trace r playSFX _resp res x noMore post (Some (step_exit res))
| it_idle_abort post :
    truthy x = false -> noMore = true ->
    forallb io_event post = true ->
    iteration_trace r playSFX _resp res x noMore post None
| it_opening_abort pre :
    truthy x = true ->
    forallb io_event pre = true ->
    iteration_trace r playSFX _resp res x noMore pre None
| it_dispatch_abort pre inner :
    truthy x = true ->
    forallb io_event pre = true ->
    forallb chimeless inner = true ->
    iteration_trace r playSFX _resp res x noMore
      (pre ++ DispatchBegin x :: inner) None
| it_break pre inner :
    truthy x = true ->
    forallb io_event pre = true ->
    sites pre = opening_sites playSFX _resp ->
    forallb chimeless inner = true ->
    iteration_trace r playSFX _resp res x noMore
      (pre ++ DispatchBegin x :: inner ++ [DispatchEnd res_break; Cancel r])
      (Some (step_exit res_break))
| it_done_again pre inner ms :
    truthy x = true -> noMore = false ->
    forallb io_event pre = true ->
    sites pre = opening_sites playSFX _resp ->
    forallb chimeless inner = true ->
    iteration_trace r playSFX _resp res x noMore
      (pre ++ DispatchBegin x :: inner ++ [DispatchEnd res_undefined; Sleep ms])
      (Some (step_again (_resp ++ default [] x) res_undefined))
| it_done_exit pre inner post :
    truthy x = true -> noMore = true ->
    forallb io_event pre = true ->
    sites pre = opening_sites playSFX _resp ->
    forallb chimeless inner = true ->
    forallb io_event post = true ->
    sites post = closing_sites playSFX (_resp ++ default [] x) ->
    iteration_trace r playSFX _resp res x noMore
      (pre ++ DispatchBegin x :: inner ++ DispatchEnd res_undefined :: post)
      (Some (step_exit res_undefined))
| it_done_abort pre inner post :
    truthy x = true -> noMore = true ->
    forallb io_event pre = true ->
    forallb chimeless inner = true ->
    forallb io_event post = true ->
    iteration_trace r playSFX _resp res x noMore
      (pre ++ DispatchBegin x :: inner ++ DispatchEnd res_undefined :: post)
      None.

(** * Properties *)

(** ** The monad *)

Lemma events_prepend {A} e (o : Outcome A) : events (prepend e o) = e ++ events o.
Proof. by destruct o. Qed.

Lemma final_prepend {A} e (o : Outcome A) : final (prepend e o) = final o.
Proof. by destruct o. Qed.

Lemma value_prepend {A} e (o : Outcome A) : value (prepend e o) = value o.
Proof. by destruct o. Qed.

Lemma events_bind {A B} (m : M A) (k : A -> M B) s :
  events (bind m k s)
  = events (m s)
    ++ match value (m s) with
       | Some a => events (k a (final (m s)))
       | None => []
       end.
Proof.
  unfold bind. destruct (m s); simpl; rewrite ?events_prepend, ?app_nil_r; done.
Qed.

Lemma final_bind {A B} (m : M A) (k : A -> M B) s :
  final (bind m k s)
  = match value (m s) with
    | Some a => final (k a (final (m s)))
    | None => final (m s)
    end.
Proof. unfold bind. destruct (m s); simpl; rewrite ?final_prepend; done. Qed.

Lemma value_bind {A B} (m : M A) (k : A -> M B) s :
  value (bind m k s)
  = match value (m s) with
    | Some a => value (k a (final (m s)))
    | None => None
    end.
Proof. unfold bind. destruct (m s); simpl; rewrite ?value_prepend; done. Qed.

(** A run that returns is determined by its three observations. *)
Lemma returned_eq {A} (o : Outcome A) a :
  value o = Some a -> o = Returned a (final o) (events o).
Proof. destruct o; simpl; congruence. Qed.

#[local] Instance stable_preorder : PreOrder stable.
Proof.
  split.
  - by intros s.
  - intros a b c (?&?&?) (?&?&?). repeat split; congruence.
Qed.

#[local] Instance same_options_preorder : PreOrder same_options.
Proof.
  split.
  - by intros s.
  - intros a b c (?&?) (?&?). repeat split; congruence.
Qed.

Lemma stable_same_options s s' : stable s s' -> same_options s s'.
Proof. intros (?&?&?). by split. Qed.

Section Only.

Context (R : State -> State -> Prop) `{!PreOrder R} (p : Event -> bool).

Lemma only_ret {A} (a : A) : only R p (ret a).
Proof. intros s. split; [reflexivity | done]. Qed.

Lemma only_get : only R p get.
Proof. intros s. split; [reflexivity | done]. Qed.

Lemma only_throw {A} e : only R p (@throw A e).
Proof. intros s. split; [reflexivity | done]. Qed.

Lemma only_out_of_fuel {A} : only R p (@out_of_fuel A).
Proof. intros s. split; [reflexivity | done]. Qed.

Lemma only_emit e : p e = true -> only R p (emit e).
Proof. intros He s. split; [reflexivity | simpl; by rewrite He]. Qed.

Lemma only_modify f : (forall s, R s (f s)) -> only R p (modify f).
Proof. intros Hf s. split; [apply Hf | done]. Qed.

Lemma only_bind {A B} (m : M A) (k : A -> M B) :
  only R p m -> (forall a, only R p (k a)) -> only R p (bind m k).
Proof.
  intros Hm Hk s. destruct (Hm s) as [HR Hp].
  rewrite final_bind, events_bind, forallb_app, Hp.
  destruct (value (m s)) as [a|]; [|by split].
  destruct (Hk a (final (m s))) as [HR' Hp']. split; [|done].
  by etrans.
Qed.

Lemma only_when b m : only R p m -> only R p (when b m).
Proof. destruct b; [done | intros _; apply only_ret]. Qed.

End Only.

Lemma only_weaken {A} (R R' : State -> State -> Prop) (p p' : Event -> bool)
    (m : M A) :
  (forall s s', R s s' -> R' s s') ->
  (forall e, p e = true -> p' e = true) ->
  only R p m -> only R' p' m.
Proof.
  intros HR Hp Hm s. destruct (Hm s) as [H1 H2]. split; [by apply HR|].
  rewrite forallb_forall in *. intros e He. by apply Hp, H2.
Qed.

Lemma stable_suspended w s : stable s (suspended w s).
Proof.
  unfold suspended. repeat split; simpl; try done.
  by destruct (superseded_at w (clock s)), (this s).
Qed.

Lemma device_run w c s :
  device w c s
  = if device_fails w (clock s)
    then Thrown DeviceError (suspended w s) [Device c]
    else Returned (clock s) (suspended w s) [Device c].
Proof.
  cbv [device bind get emit suspend prepend].
  by destruct (device_fails w (clock s)).
Qed.

Lemma sleep_run w ms s : sleep w ms s = Returned tt (suspended w s) [Sleep ms].
Proof. done. Qed.

Ltac only_step :=
  lazymatch goal with
  | |- only _ _ (ret _) => apply only_ret; tc_solve
  | |- only _ _ get => apply only_get; tc_solve
  | |- only _ _ (throw _) => apply only_throw; tc_solve
  | |- only _ _ out_of_fuel => apply only_out_of_fuel; tc_solve
  | |- only _ _ (when _ _) => apply only_when; [tc_solve|]
  | |- only _ _ (bind _ _) => apply only_bind; [tc_solve | | intros ?]
  | |- only _ _ (match ?x with _ => _ end) => destruct x
  end.

Ltac only_tac := repeat only_step.

(** ** The device protocol leaves the stores alone *)

Section Protocol.

Context (w : World) (p : Event -> bool).
Hypothesis p_chimeless : forall e, chimeless e = true -> p e = true.

Lemma only_suspend : only stable p (suspend w).
Proof.
  intros s. split; [|done]. apply stable_suspended.
Qed.

Lemma only_device c :
  is_chime (Device c) = false -> only stable p (device w c).
Proof.
  intros Hc. unfold device. only_tac.
  - apply only_emit; [tc_solve|]. apply p_chimeless. unfold chimeless.
    by rewrite Hc.
  - apply only_suspend.
Qed.

Lemma only_sleep ms : only stable p (sleep w ms).
Proof.
  unfold sleep. only_tac.
  - apply only_emit; [tc_solve|]. by apply p_chimeless.
  - apply only_suspend.
Qed.

Lemma only_wakeUp : only stable p (wakeUp w).
Proof. unfold wakeUp. only_tac. by apply only_device. Qed.

Lemma only_unWakeUp : only stable p (unWakeUp w).
Proof. unfold unWakeUp. only_tac; by apply only_device. Qed.

Lemma only_poll : only stable p (poll w).
Proof. unfold poll. only_tac; by apply only_device. Qed.

Lemma only_call_hasNewMsg o : only stable p (call_hasNewMsg o).
Proof.
  unfold call_hasNewMsg. only_tac.
  apply only_emit; [tc_solve|]. by apply p_chimeless.
Qed.

Lemma only_monitor_tick o : only stable p (monitor_tick w o).
Proof.
  unfold monitor_tick. only_tac;
    auto using only_poll, only_call_hasNewMsg, only_sleep.
Qed.

Lemma only_monitor fuel o : only stable p (monitor w fuel o).
Proof.
  induction fuel as [|fuel IH]; simpl; only_tac; auto using only_monitor_tick.
Qed.

Section Play.

Context (playSFX : bool).
Hypothesis p_chime :
  playSFX = true -> forall u, p (Device (MiNA_play boundary_chime u)) = true.

Lemma only_play_beep_if b :
  only stable p (when (playSFX && b) (play_beep w)).
Proof.
  destruct playSFX; simpl; [|apply only_ret; tc_solve].
  apply only_when; [tc_solve|]. unfold play_beep, device. only_tac.
  - apply only_emit; [tc_solve|]. by apply p_chime.
  - apply only_suspend.
Qed.

Lemma only_play fuel o ttsNotXiaoai keepAlive args :
  only stable p (play w fuel o playSFX ttsNotXiaoai keepAlive args).
Proof.
  unfold play. repeat first [apply only_play_beep_if | only_step];
    auto using only_unWakeUp, only_sleep, only_monitor, only_wakeUp,
      only_device.
Qed.

End Play.

End Protocol.

(** ** The shape of one dispatch *)

Section Dispatch.

Context (w : World) (p : Event -> bool).
Hypothesis p_chimeless : forall e, chimeless e = true -> p e = true.

(** A call of [_response] emits its two marks around events of the
    device protocol, and leaves the stores alone. *)
Lemma _response_shape fuel o s :
  (_response_playSFX o s = true ->
   forall u, p (Device (MiNA_play boundary_chime u)) = true) ->
  stable s (final (_response w fuel o s)) /\
  exists inner,
    forallb p inner = true /\
    events (_response w fuel o s)
    = DispatchBegin (Options.text o) :: inner
      ++ match value (_response w fuel o s) with
         | Some r => [DispatchEnd r]
         | None => []
         end.
Proof.
  intros Hchime. unfold _response.
  rewrite final_bind, events_bind, value_bind. simpl.
  rewrite final_bind, events_bind, value_bind. simpl.
  match goal with
  | |- context [bind ?m _ s] => set (body := m)
  end.
  assert (Hbody : only stable p body).
  { subst body.
    repeat first
      [ apply only_play; [done | done]
      | match goal with
        | |- only _ _ (if ?b then _ else _) => destruct b
        end
      | only_step ]. }
  destruct (Hbody s) as [Hst Hev].
  rewrite final_bind, events_bind, value_bind.
  destruct (value (body s)) as [r|]; simpl.
  - split; [done|]. by exists (events (body s)).
  - split; [done|]. exists (events (body s)). by rewrite ?app_nil_r.
Qed.

End Dispatch.

(** ** The playback monitor *)

Lemma poll_with_property w s siid piid marker :
  BaseSpeaker.playingCommand (this s) = Some (siid, piid, marker) ->
  poll w s
  = if device_fails w (clock s)
    then Thrown DeviceError (suspended w s) [Device (MiIOT_getProperty siid piid)]
    else Returned (if strict_eq_number (getProperty_reply w (clock s)) marker
                   then playing_only else idle)
           (suspended w s) [Device (MiIOT_getProperty siid piid)].
Proof.
  intros Hcmd. unfold poll. cbv [bind get]. rewrite Hcmd, device_run.
  by destruct (device_fails w (clock s)).
Qed.

Lemma monitor_tick_after_poll w o s playing s1 e1 :
  poll w s = Returned playing s1 e1 ->
  let newMsg :=
    match Options.hasNewMsg o with Some f => f (clock s1) | None => false end in
  let called :=
    match Options.hasNewMsg o with
    | Some _ => [HasNewMsgCalled newMsg]
    | None => []
    end in
  monitor_tick w o s
  = match interruption newMsg (BaseSpeaker.responding (this s1)) playing with
    | Some _ => Returned tick_break s1 (e1 ++ called)
    | None =>
        if is_playing playing
        then Returned tick_again (suspended w s1)
               (e1 ++ called ++ [Sleep (BaseSpeaker.checkInterval (this s1))])
        else Returned tick_done s1 (e1 ++ called)
    end.
Proof.
  intros Hpoll. unfold monitor_tick, bind at 1. rewrite Hpoll.
  unfold call_hasNewMsg.
  destruct (Options.hasNewMsg o) as [f|];
    cbv [bind get emit ret prepend];
    (destruct (interruption _ _ _); [by rewrite ?app_nil_r|]);
    destruct (is_playing playing); simpl; by rewrite ?app_nil_r.
Qed.





Lemma is_playing_idle : is_playing idle = false.
Proof. reflexivity. Qed.

Lemma is_playing_playing_only : is_playing playing_only = true.
Proof. reflexivity. Qed.

Lemma playingCommand_suspended w s :
  BaseSpeaker.playingCommand (this (suspended w s))
  = BaseSpeaker.playingCommand (this s).
Proof. unfold suspended; simpl. by destruct (superseded_at w (clock s)). Qed.

Lemma no_media_type_after_property_poll w s cmd playing s1 e1 :
  BaseSpeaker.playingCommand (this s) = Some cmd ->
  poll w s = Returned playing s1 e1 ->
  (playing = playing_only \/ playing = idle) /\ s1 = suspended w s.
Proof.
  destruct cmd as [[siid piid] marker]. intros Hcmd.
  rewrite (poll_with_property _ _ _ _ _ Hcmd).
  destruct (device_fails w (clock s)); [done|].
  intros [= <- <- <-].
  destruct (strict_eq_number _ _); auto.
Qed.

(** C9. With a playing-state property command configured, the playback
    state derived on a tick is exactly [{status: "playing"}] or
    [{status: "idle"}], without a media type, so the third interruption
    condition never holds: the monitor resolves to interrupted only
    through the caller's check or the cleared [responding] flag. *)
Theorem property_command_excludes_device_interruption w cmd s :
  BaseSpeaker.playingCommand (this s) = Some cmd ->
  (forall playing s1 e1,
     poll w s = Returned playing s1 e1 ->
     (playing = playing_only \/ playing = idle)
     /\ media_type playing = None
     /\ forall newMsg responding,
          interruption newMsg responding playing <> Some by_device)
  /\ (forall fuel o s' evs,
        monitor w fuel o s = Returned true s' evs ->
        (exists evs', evs = evs' ++ [HasNewMsgCalled true])
        \/ BaseSpeaker.responding (this s') = false).
Proof.
  intros Hcmd. split.
  - intros playing s1 e1 Hpoll.
    destruct (no_media_type_after_property_poll _ _ _ _ _ _ Hcmd Hpoll)
      as [Hpl _].
    split; [done|]. split; [by destruct Hpl as [->| ->]|].
    intros newMsg responding. unfold interruption.
    destruct newMsg, responding; simpl; try done.
    by destruct Hpl as [->| ->].
  - intros fuel. revert s Hcmd.
    induction fuel as [|fuel IH]; intros s Hcmd o s' evs; [done|].
    cbn [monitor]. unfold bind at 1.
    destruct (poll w s) as [playing s1 e1| |] eqn:Hpoll.
    + destruct (no_media_type_after_property_poll _ _ _ _ _ _ Hcmd Hpoll)
        as [Hpl ->].
      rewrite (monitor_tick_after_poll _ o _ _ _ _ Hpoll).
      unfold interruption.
      destruct (Options.hasNewMsg o) as [f|].
      * destruct (f (clock (suspended w s))) eqn:Hf; cbn.
        { intros [= <- <-]. left. exists e1. by rewrite app_nil_r. }
        destruct (BaseSpeaker.responding (this (suspended w s))) eqn:Hr; cbn.
        { destruct Hpl as [->| ->];
            rewrite ?is_playing_idle, ?is_playing_playing_only; cbn; [|done].
          intros Hrun.
          destruct (monitor w fuel o (suspended w (suspended w s)))
            as [b s2 e2| |] eqn:Hm; simpl in Hrun; try done.
          injection Hrun as -> <- <-.
          apply IH in Hm; [|by rewrite !playingCommand_suspended].
          destruct Hm as [[evs' ->]|?]; [left|by right].
          eexists. by rewrite !app_assoc. }
        intros [= <- <-]. by right.
      * cbn.
        destruct (BaseSpeaker.responding (this (suspended w s))) eqn:Hr; cbn.
        { destruct Hpl as [->| ->];
            rewrite ?is_playing_idle, ?is_playing_playing_only; cbn; [|done].
          intros Hrun.
          destruct (monitor w fuel o (suspended w (suspended w s)))
            as [b s2 e2| |] eqn:Hm; simpl in Hrun; try done.
          injection Hrun as -> <- <-.
          apply IH in Hm; [|by rewrite !playingCommand_suspended].
          destruct Hm as [[evs' ->]|?]; [left|by right].
          eexists. by rewrite !app_assoc. }
        intros [= <- <-]. by right.
    + unfold monitor_tick, bind. by rewrite Hpoll.
    + unfold monitor_tick, bind. by rewrite Hpoll.
Qed.

(** ** Switching the default voice *)

Lemma switchDefaultSpeaker_loaded w speaker s l :
  catalog_loaded w s l ->
  exists s1 evs,
    stable s s1 /\
    BaseSpeaker._defaultSpeaker (this s1) = BaseSpeaker._defaultSpeaker (this s) /\
    switchDefaultSpeaker w speaker s
    = match List.find (matches speaker) l with
      | Some e =>
          Returned true
            (set_this (BaseSpeaker.with_defaultSpeaker (Speaker.speaker e))
               (set_this (BaseSpeaker.with_doubaoSpeakers (Some l)) s1))
            evs
      | None =>
          Returned false
            (set_this (BaseSpeaker.with_doubaoSpeakers (Some l)) s1) evs
      end.
Proof.
  intros [Hc|(Hc & Hapi & Hfetch)].
  - exists s, []. split; [done|]. split; [done|].
    unfold switchDefaultSpeaker. cbv [bind get]. rewrite Hc. cbn.
    assert (Hs : set_this (BaseSpeaker.with_doubaoSpeakers (Some l)) s = s).
    { destruct s as [[] ? ? ?]; cbn in *. by rewrite Hc. }
    rewrite Hs, Hc.
    destruct (List.find (matches speaker) l) as [e|]; cbn; [|done].
    by rewrite bool_decide_eq_true_2.
  - exists (suspended w s), [Fetch (default [] (SPEAKERS_DOUBAO w))].
    split; [apply stable_suspended|].
    split; [unfold suspended; cbn; by destruct (superseded_at w (clock s))|].
    unfold switchDefaultSpeaker. cbv [bind get]. rewrite Hc, Hapi. cbn.
    cbv [fetch_json bind get emit suspend prepend]. rewrite Hfetch. cbn.
    destruct (List.find (matches speaker) l) as [e|]; cbn; [|done].
    by rewrite bool_decide_eq_true_2.
Qed.

Lemma matches_spec speaker e :
  matches speaker e = true
  <-> Speaker.name e = speaker \/ Speaker.speaker e = speaker.
Proof.
  unfold matches. rewrite orb_true_iff, !bool_decide_eq_true. done.
Qed.

(** C6. With a loaded catalog, if some entry matches the argument exactly
    on display name or on provider voice id, the default voice id becomes
    the provider id of the (first) matching entry and the call returns
    true; if no entry matches, the default voice id is unchanged and the
    call returns false. *)
Theorem switch_on_loaded_catalog w speaker s l :
  catalog_loaded w s l ->
  let o := switchDefaultSpeaker w speaker s in
  ((exists e, In e l /\
      (Speaker.name e = speaker \/ Speaker.speaker e = speaker)) ->
   value o = Some true /\
   exists e, List.find (matches speaker) l = Some e /\ In e l /\
     (Speaker.name e = speaker \/ Speaker.speaker e = speaker) /\
     BaseSpeaker._defaultSpeaker (this (final o)) = Speaker.speaker e)
  /\ ((forall e, In e l ->
         Speaker.name e <> speaker /\ Speaker.speaker e <> speaker) ->
      value o = Some false /\
      BaseSpeaker._defaultSpeaker (this (final o))
      = BaseSpeaker._defaultSpeaker (this s)).
Proof.
  intros Hl o.
  destruct (switchDefaultSpeaker_loaded w speaker s l Hl)
    as (s1 & evs & Hst & Hdef & Hrun).
  subst o. rewrite Hrun. split.
  - intros (e & Hin & Hm).
    destruct (List.find (matches speaker) l) as [e'|] eqn:Hfind.
    + split; [done|]. exists e'. split; [done|].
      apply find_some in Hfind as [Hin' Hm'].
      apply matches_spec in Hm'. by destruct s1 as [[] ? ? ?].
    + apply (find_none _ _ Hfind) in Hin.
      apply matches_spec in Hm. congruence.
  - intros Hno.
    destruct (List.find (matches speaker) l) as [e'|] eqn:Hfind.
    + apply find_some in Hfind as [Hin' Hm'].
      apply matches_spec in Hm'. destruct (Hno _ Hin'). tauto.
    + split; [done|]. rewrite <- Hdef. by destruct s1 as [[] ? ? ?].
Qed.

Lemma switch_on_loaded_catalog_witness :
  value (switchDefaultSpeaker Scenario.calm (js "Maomao")
           (Scenario.start Scenario.speaker0 (Scenario.say None []))) = Some true
  /\ BaseSpeaker._defaultSpeaker
       (this (final (switchDefaultSpeaker Scenario.calm (js "Maomao")
          (Scenario.start Scenario.speaker0 (Scenario.say None [])))))
     = js "zh_female_maomao_x".
Proof.
  destruct (switch_on_loaded_catalog Scenario.calm (js "Maomao")
              (Scenario.start Scenario.speaker0 (Scenario.say None []))
              Scenario.catalog) as [Hyes _].
  { right. repeat split; reflexivity. }
  destruct Hyes as (Hv & e & Hfind & _ & _ & Hd).
  { eexists. split; [left; reflexivity|]. left. reflexivity. }
  split; [exact Hv|].
  rewrite Hd. vm_compute in Hfind. injection Hfind as <-. reflexivity.
Defined.

(** C5 (amended). For a call made while no catalog is loaded: if the
    catalog endpoint is not configured, or the fetched result is not a
    list, the call returns false; if the fetch itself fails, the error is
    thrown to the caller; in all three cases the default voice id is left
    unchanged and no catalog is stored. *)
Theorem switch_without_catalog w speaker s :
  BaseSpeaker._doubaoSpeakers (this s) = None ->
  let o := switchDefaultSpeaker w speaker s in
  (truthy (SPEAKERS_DOUBAO w) = false \/ fetch_reply w (clock s) = json_other ->
   value o = Some false)
  /\ (truthy (SPEAKERS_DOUBAO w) = true ->
      fetch_reply w (clock s) = fetch_rejects ->
      exists s' evs, o = Thrown FetchError s' evs)
  /\ (truthy (SPEAKERS_DOUBAO w) = false
      \/ fetch_reply w (clock s) = json_other
      \/ fetch_reply w (clock s) = fetch_rejects ->
      BaseSpeaker._defaultSpeaker (this (final o))
      = BaseSpeaker._defaultSpeaker (this s)
      /\ BaseSpeaker._doubaoSpeakers (this (final o)) = None).
Proof.
  intros Hc o. subst o. unfold switchDefaultSpeaker. cbv [bind get].
  rewrite Hc. cbn.
  assert (Hsus : BaseSpeaker._doubaoSpeakers (this (suspended w s)) = None
                 /\ BaseSpeaker._defaultSpeaker (this (suspended w s))
                    = BaseSpeaker._defaultSpeaker (this s)).
  { unfold suspended; cbn. by destruct (superseded_at w (clock s)). }
  destruct Hsus as [Hc' Hd'].
  destruct (truthy (SPEAKERS_DOUBAO w)) eqn:Hapi; cbn.
  - cbv [fetch_json bind get emit suspend prepend].
    destruct (fetch_reply w (clock s)) eqn:Hf; cbn; rewrite ?Hc'; cbn.
    + split; [naive_solver|]. split; [eauto|]. done.
    + split; [naive_solver|]. split; [done|]. naive_solver.
    + split; [done|]. split; [done|]. done.
  - rewrite Hc. cbn. split; [done|]. split; [done|]. done.
Qed.

Lemma switch_without_catalog_witness :
  value (switchDefaultSpeaker Scenario.no_vendor (js "Maomao")
           (Scenario.start Scenario.speaker0 (Scenario.say None [])))
  = Some false.
Proof.
  apply (switch_without_catalog Scenario.no_vendor (js "Maomao")
           (Scenario.start Scenario.speaker0 (Scenario.say None []))).
  - reflexivity.
  - left. reflexivity.
Defined.

(** C5 as stated fails: when the catalog fetch fails the call does not
    return false, it throws. *)
Lemma switch_fetch_failure_throws :
  switchDefaultSpeaker Scenario.failing (js "Maomao")
    (Scenario.start Scenario.speaker0 (Scenario.say None []))
  = Thrown FetchError
      (suspended Scenario.failing
         (Scenario.start Scenario.speaker0 (Scenario.say None [])))
      [Fetch (js "http://tts.local/speakers")]
  /\ value (switchDefaultSpeaker Scenario.failing (js "Maomao")
             (Scenario.start Scenario.speaker0 (Scenario.say None [])))
     <> Some false.
Proof. split; [reflexivity | discriminate]. Qed.


Lemma property_command_excludes_device_interruption_witness :
  value (poll Scenario.music
           (Scenario.start Scenario.speaker_with_property
              (Scenario.say None (js "Hi"))))
  = Some playing_only
  /\ media_type playing_only = None
  /\ interruption false true playing_only <> Some by_device.
Proof.
  destruct (property_command_excludes_device_interruption Scenario.music
              (3, 1, 1)%Z
              (Scenario.start Scenario.speaker_with_property
                 (Scenario.say None (js "Hi"))) eq_refl) as [H _].
  destruct (H _ _ _ eq_refl) as (_ & Hm & Hi).
  split; [reflexivity|]. split; [exact Hm | apply Hi].
Defined.

(** ** What a session leaves alone *)

Section Session.

Context (w : World).

Lemma io_event_session e : io_event e = true -> session_event e = true.
Proof. by destruct e. Qed.

Lemma chimeless_io e : chimeless e = true -> io_event e = true.
Proof. unfold chimeless. by intros [? _]%andb_true_iff. Qed.

Lemma only__response fuel o :
  only same_options session_event (_response w fuel o).
Proof.
  intros s.
  destruct (_response_shape w io_event chimeless_io fuel o s)
    as [Hst (inner & Hin & Hev)]; [by intros _ u|].
  split; [by apply stable_same_options|].
  rewrite Hev. cbn. rewrite forallb_app. apply andb_true_iff. split.
  - rewrite forallb_forall in *. intros e He. by apply io_event_session, Hin.
  - by destruct (value _).
Qed.

Lemma only_io_session {A} (m : M A) :
  only stable io_event m -> only same_options session_event m.
Proof.
  apply only_weaken; [apply stable_same_options | apply io_event_session].
Qed.

Lemma only_play_beep : only stable io_event (play_beep w).
Proof.
  apply (only_play_beep_if w io_event true (fun _ _ => eq_refl) true).
Qed.

Lemma only_getNextResponse r :
  only same_options session_event (getNextResponse r).
Proof.
  unfold getNextResponse. only_tac.
  - by apply only_emit; [tc_solve|].
  - by apply only_modify.
Qed.

Lemma only_cancel r : only same_options session_event (cancel r).
Proof.
  unfold cancel. only_tac.
  - by apply only_emit; [tc_solve|].
  - by apply only_modify.
Qed.

Lemma only_stream_iteration mfuel r playSFX ttsNotXiaoai keepAlive _resp res :
  only same_options session_event
    (stream_iteration w mfuel r playSFX ttsNotXiaoai keepAlive _resp res).
Proof.
  unfold stream_iteration. only_tac;
    try apply only_getNextResponse; try apply only_cancel;
    try apply only__response;
    apply only_io_session;
    first [ apply only_unWakeUp | apply only_wakeUp | apply only_sleep
          | apply only_play_beep ];
    try apply chimeless_io.
Qed.

Lemma only_streamLoop fuel mfuel r playSFX ttsNotXiaoai keepAlive :
  forall _resp res,
    only same_options session_event
      (streamLoop w fuel mfuel r playSFX ttsNotXiaoai keepAlive _resp res).
Proof.
  induction fuel as [|fuel IH]; intros _resp res; cbn [streamLoop].
  - apply only_out_of_fuel; tc_solve.
  - only_tac; [apply only_stream_iteration | apply IH].
Qed.

End Session.

(** ** [response] in three stages *)

Lemma prepend_nil {A} (o : Outcome A) : prepend [] o = o.
Proof. by destruct o. Qed.

Lemma bind_get {A} (k : State -> M A) s : bind get k s = k s s.
Proof. unfold bind, get. apply prepend_nil. Qed.

Lemma bind_ret {A B} (a : A) (k : A -> M B) s : bind (ret a) k s = k a s.
Proof. unfold bind, ret. apply prepend_nil. Qed.

Lemma bind_modify {A} f (k : unit -> M A) s : bind (modify f) k s = k tt (f s).
Proof. unfold bind, modify. apply prepend_nil. Qed.

Lemma bind_emit {A} e (k : unit -> M A) s :
  bind (emit e) k s = prepend [e] (k tt s).
Proof. done. Qed.

Lemma bind_assoc {A B C} (m : M A) (k : A -> M B) (h : B -> M C) s :
  bind (bind m k) h s = bind m (fun a => bind (k a) h) s.
Proof.
  unfold bind. destruct (m s) as [a s1 e1| |]; try done.
  destruct (k a s1) as [b s2 e2| |]; cbn; try done.
  destruct (h b s2); cbn; by rewrite app_assoc.
Qed.

(** The two writes of the flag around the reply (lines 155 and 204). *)
Lemma flag_bracket (m : M Result) s :
  (set_responding true ;;; res <- m ;; set_responding false ;;; ret res) s
  = match m (set_this (BaseSpeaker.with_responding true) s) with
    | Returned res s3 evs =>
        Returned res (set_this (BaseSpeaker.with_responding false) s3)
          (SetResponding true :: evs ++ [SetResponding false])
    | Thrown e s3 evs => Thrown e s3 (SetResponding true :: evs)
    | OutOfFuel s3 evs => OutOfFuel s3 (SetResponding true :: evs)
    end.
Proof.
  unfold set_responding. rewrite bind_assoc, bind_emit, bind_modify.
  unfold bind at 1.
  destruct (m _) as [res s3 evs| |]; cbn; by rewrite ?app_nil_r.
Qed.

Lemma response_run w fuel s :
  response w fuel s
  = match session_body w fuel s (session_entry w s) with
    | Returned res s3 evs =>
        Returned res (set_this (BaseSpeaker.with_responding false) s3)
          (SetResponding true :: evs ++ [SetResponding false])
    | Thrown e s3 evs => Thrown e s3 (SetResponding true :: evs)
    | OutOfFuel s3 evs => OutOfFuel s3 (SetResponding true :: evs)
    end.
Proof.
  unfold response, session_body, session_entry, session_ref.
  rewrite bind_get, bind_modify.
  destruct (Options.stream (options s)) as [r|] eqn:Hs.
  - rewrite bool_decide_eq_true_2 by eauto. rewrite andb_false_r.
    rewrite bind_ret. apply flag_bracket.
  - rewrite bool_decide_eq_false_2 by (intros [? ?]; done). rewrite andb_true_r.
    destruct (response_ttsNotXiaoai w s) eqn:Hn.
    + unfold createStreamResponse.
      rewrite !bind_assoc, bind_get, bind_assoc, bind_modify, bind_ret, bind_ret.
      apply flag_bracket.
    + rewrite bind_ret.
      rewrite (flag_bracket (s0 <- get ;; _response w fuel (options s0))).
      by rewrite bind_get.
Qed.

Lemma only_session_body w fuel s :
  only same_options session_event (session_body w fuel s).
Proof.
  unfold session_body. destruct (session_ref w s).
  - apply only_streamLoop.
  - intros s2. apply only__response.
Qed.

Lemma options_session_entry w s :
  options (session_entry w s) = assign_default_hasNewMsg (options s).
Proof.
  unfold session_entry. cbv zeta.
  by destruct (_ && _).
Qed.

Lemma options_after_response w fuel s :
  options (final (response w fuel s)) = assign_default_hasNewMsg (options s).
Proof.
  rewrite response_run.
  destruct (only_session_body w fuel s (session_entry w s)) as [[Ho _] _].
  rewrite options_session_entry in Ho.
  by destruct (session_body w fuel s (session_entry w s)).
Qed.

(** C10. [response] writes the default interruption check into the
    caller's own object when the caller omitted that member, the
    assignment is still there when the call is over, and every other
    member of the object is left as it was. *)
Theorem response_defaults_interruption_check w fuel s :
  let before := options s in
  let after := options (final (response w fuel s)) in
  (Options.hasNewMsg before = None ->
   Options.hasNewMsg after = Some default_hasNewMsg)
  /\ (forall f, Options.hasNewMsg before = Some f ->
                Options.hasNewMsg after = Some f)
  /\ Options.tts after = Options.tts before
  /\ Options.text after = Options.text before
  /\ Options.stream after = Options.stream before
  /\ Options.audio after = Options.audio before
  /\ Options.speaker after = Options.speaker before
  /\ Options.keepAlive after = Options.keepAlive before
  /\ Options.playSFX after = Options.playSFX before.
Proof.
  cbv zeta. rewrite options_after_response. unfold assign_default_hasNewMsg.
  destruct (Options.hasNewMsg (options s)) as [g|] eqn:Hg; cbn;
    repeat split; try done; congruence.
Qed.

Lemma response_defaults_interruption_check_witness :
  Options.hasNewMsg
    (options (final (response Scenario.calm 3
                       (Scenario.start Scenario.speaker0 Requests.hi))))
  = Some default_hasNewMsg
  /\ value (response Scenario.calm 3
              (Scenario.start Scenario.speaker0 Requests.hi))
     = Some res_undefined.
Proof.
  split; [|reflexivity].
  destruct (response_defaults_interruption_check Scenario.calm 3
              (Scenario.start Scenario.speaker0 Requests.hi)) as [H _].
  apply H. reflexivity.
Defined.

(** C3 (amended). [response] writes the flag exactly twice on every path
    on which it returns (completed, interrupted or skipped): true before
    anything else happens, false as its last action, so the flag is false
    when the call returns.  On a path that ends in a thrown error the
    first write is the only one: the call does not clear the flag. *)
Theorem responding_flag_bracket w fuel s :
  let o := response w fuel s in
  (exists mid,
     forallb session_event mid = true /\
     events o
     = SetResponding true :: mid
       ++ match value o with Some _ => [SetResponding false] | None => [] end)
  /\ (is_Some (value o) -> BaseSpeaker.responding (this (final o)) = false)
  /\ (value o = None -> flag_writes (events o) = [true]).
Proof.
  cbv zeta. rewrite response_run.
  destruct (only_session_body w fuel s (session_entry w s)) as [_ Hev].
  assert (Hfw : forall evs, forallb session_event evs = true ->
                            flag_writes evs = []).
  { induction evs as [|e evs IH]; [done|]. cbn.
    intros [He Hevs]%andb_true_iff. unfold flag_writes in *. cbn.
    rewrite (IH Hevs). by destruct e. }
  destruct (session_body w fuel s (session_entry w s)) as [res s3 evs| |];
    cbn in *.
  - split; [by exists evs|]. split; [|done]. intros _. by destruct s3 as [[]].
  - split; [exists evs; by rewrite app_nil_r|]. split; [by intros [? ?]|].
    intros _. unfold flag_writes in *. cbn. by rewrite Hfw.
  - split; [exists evs; by rewrite app_nil_r|]. split; [by intros [? ?]|].
    intros _. unfold flag_writes in *. cbn. by rewrite Hfw.
Qed.

Lemma responding_flag_bracket_witness :
  BaseSpeaker.responding
    (this (final (response Scenario.calm 3
                    (Scenario.start Scenario.speaker0 Requests.hi))))
  = false.
Proof.
  destruct (responding_flag_bracket Scenario.calm 3
              (Scenario.start Scenario.speaker0 Requests.hi)) as (_ & H & _).
  apply H. exists res_undefined. reflexivity.
Defined.

(** C3 as stated fails: when a device call throws, the call ends with the
    flag still true. *)
Lemma responding_stays_true_after_device_error :
  exists s' evs,
    response Scenario.failing 3 (Scenario.start Scenario.speaker0 Requests.hi)
    = Thrown DeviceError s' evs
    /\ BaseSpeaker.responding (this s') = true
    /\ flag_writes evs = [true].
Proof. eexists _, _. split; [reflexivity|]. split; reflexivity. Qed.

(** ** Requests without a payload *)

Lemma session_entry_this w s :
  this (session_entry w s) = BaseSpeaker.with_responding true (this s).
Proof. unfold session_entry. cbv zeta. by destruct (_ && _). Qed.

(** C8 (amended). A request with no audio URL and no stream, whose text
    is absent or empty, or normalises to the empty string while the
    native provider is in effect, is skipped: [response] returns
    [undefined] and makes no device call at all; it only brackets one
    empty dispatch with the two writes of the flag. *)
Theorem no_payload_is_skipped w fuel s :
  truthy (Options.audio (options s)) = false ->
  Options.stream (options s) = None ->
  truthy (Text.normalize <$> Options.text (options s)) = false ->
  truthy (Options.text (options s)) = false \/ response_tts w s = xiaoai ->
  value (response w fuel s) = Some res_undefined
  /\ events (response w fuel s)
     = [SetResponding true; DispatchBegin (Options.text (options s));
        DispatchEnd res_undefined; SetResponding false]
  /\ device_calls (events (response w fuel s)) = [].
Proof.
  intros Ha Hs Hn Ht.
  assert (Hnx : response_ttsNotXiaoai w s = false).
  { unfold response_ttsNotXiaoai. rewrite Hs, Ha.
    rewrite bool_decide_eq_false_2 by (intros [? ?]; done).
    destruct Ht as [-> | ->]; cbn; [done|]. by rewrite andb_false_r. }
  assert (Hrun : session_body w fuel s (session_entry w s)
                 = Returned res_undefined (session_entry w s)
                     [DispatchBegin (Options.text (options s));
                      DispatchEnd res_undefined]).
  { unfold session_body, session_ref. rewrite Hs, Hnx.
    unfold _response. rewrite bind_emit, bind_get.
    rewrite options_session_entry.
    assert (Hopt : forall o, Options.text (assign_default_hasNewMsg o)
                             = Options.text o
                             /\ Options.audio (assign_default_hasNewMsg o)
                                = Options.audio o).
    { intros o. unfold assign_default_hasNewMsg.
      by destruct (Options.hasNewMsg o). }
    destruct (Hopt (options s)) as [-> ->]. rewrite Ha, Hn.
    by rewrite bind_ret, bind_emit. }
  rewrite response_run, Hrun. done.
Qed.

Lemma no_payload_is_skipped_witness :
  device_calls
    (events (response Scenario.no_vendor 0
               (Scenario.start Scenario.speaker0 Requests.blank_keep_alive)))
  = [].
Proof.
  apply (no_payload_is_skipped Scenario.no_vendor 0
           (Scenario.start Scenario.speaker0 Requests.blank_keep_alive)).
  - reflexivity.
  - reflexivity.
  - reflexivity.
  - right. reflexivity.
Defined.

(** C8 as stated fails: a text that normalises to the empty string, with
    the vendor provider in effect, is turned into a stream; nothing is
    spoken and [undefined] is returned, yet the device is called. *)
Lemma blank_text_reaches_the_device :
  Text.normalize (js " ") = []
  /\ value (response Scenario.calm 3
              (Scenario.start Scenario.speaker0 Requests.blank_keep_alive))
     = Some res_undefined
  /\ device_calls
       (events (response Scenario.calm 3
                  (Scenario.start Scenario.speaker0 Requests.blank_keep_alive)))
     = [MiIOT_doAction wake_up (5, 3)%Z None].
Proof. repeat split; reflexivity. Qed.

(** ** The vendor provider without its endpoint *)

(** C1 fails on the code.  With [TTS_DOUBAO] unset [response] does take
    the native provider for its own decisions (no stream is built), but
    it hands the caller's object, provider included, to [_response],
    which plays the chime, unwakes the device and plays a vendor URL
    built from the missing endpoint; no native TTS action is issued. *)
Theorem vendor_request_without_endpoint :
  response_tts Scenario.no_vendor
    (Scenario.start Scenario.speaker0 Requests.hello_world) = xiaoai
  /\ events (response Scenario.no_vendor 3
               (Scenario.start Scenario.speaker0 Requests.hello_world))
     = [SetResponding true;
        DispatchBegin (Some (js "Hello." ++ [10; 10]%N ++ js "World."));
        Device (MiNA_play boundary_chime (Some (js "beep.mp3")));
        Device MiNA_pause;
        Device (MiIOT_doAction un_wake_up (5, 1)%Z (Some (js "are you ok")));
        Device (MiNA_play reply
                  (Some (js "undefined?speaker=zh_female_maomao_conversation_wvae_bigtts&text=Hello.%0AWorld.")));
        Sleep 3000;
        Device MiNA_getStatus;
        HasNewMsgCalled false;
        Device (MiNA_play boundary_chime (Some (js "beep.mp3")));
        DispatchEnd res_undefined;
        SetResponding false].
Proof. split; reflexivity. Qed.

(** ** One iteration of the streaming loop *)

Section Iteration.

Context (w : World).

Lemma getNextResponse_run r s c :
  streams s !! r = Some c ->
  getNextResponse r s
  = Returned ((StreamResponse.getNextResponse c).1)
      (set_streams (fun h => <[r := (StreamResponse.getNextResponse c).2]> h) s)
      [GetNextResponse r (StreamResponse.getNextResponse c).1.1
         (StreamResponse.getNextResponse c).1.2].
Proof.
  intros Hc. unfold getNextResponse. rewrite bind_get, Hc.
  by destruct (StreamResponse.getNextResponse c) as [[x noMore] c'].
Qed.

Lemma cancel_run r s c :
  streams s !! r = Some c ->
  cancel r s
  = Returned tt (set_streams (fun h => <[r := StreamResponse.cancel c]> h) s)
      [Cancel r].
Proof. intros Hc. unfold cancel. by rewrite bind_get, Hc. Qed.

Lemma play_beep_run s :
  play_beep w s
  = if device_fails w (clock s)
    then Thrown DeviceError (suspended w s)
           [Device (MiNA_play boundary_chime (BaseSpeaker.audioBeep (this s)))]
    else Returned tt (suspended w s)
           [Device (MiNA_play boundary_chime (BaseSpeaker.audioBeep (this s)))].
Proof.
  unfold play_beep. rewrite bind_get. unfold bind. rewrite device_run.
  by destruct (device_fails w (clock s)).
Qed.

Lemma wakeUp_run s :
  wakeUp w s
  = if device_fails w (clock s)
    then Thrown DeviceError (suspended w s)
           [Device (MiIOT_doAction wake_up
                      (BaseSpeaker.wakeUpCommand (this s)) None)]
    else Returned tt (suspended w s)
           [Device (MiIOT_doAction wake_up
                      (BaseSpeaker.wakeUpCommand (this s)) None)].
Proof.
  unfold wakeUp. rewrite bind_get. unfold bind. rewrite device_run.
  by destruct (device_fails w (clock s)).
Qed.

Lemma sites_wakeUp s : sites (events (wakeUp w s)) = [].
Proof.
  unfold wakeUp. rewrite bind_get. unfold bind. rewrite device_run.
  by destruct (device_fails w (clock s)).
Qed.

Lemma sites_unWakeUp s : sites (events (unWakeUp w s)) = [].
Proof.
  unfold unWakeUp. unfold bind at 1. rewrite device_run.
  destruct (device_fails w (clock s)); [done|]. cbn [prepend].
  rewrite bind_get. unfold bind. rewrite device_run.
  by destruct (device_fails w (clock (suspended w s))).
Qed.

Lemma sites_app a b : sites (a ++ b) = sites a ++ sites b.
Proof. apply omap_app. Qed.

(** Lines 162-171. *)
Lemma opening_block playSFX ttsNotXiaoai _resp s :
  let o := when (length _resp <? 1)
             (when playSFX (play_beep w) ;;; when ttsNotXiaoai (unWakeUp w)) s in
  stable s (final o) /\ forallb io_event (events o) = true /\
  (is_Some (value o) -> sites (events o) = opening_sites playSFX _resp).
Proof.
  cbv zeta.
  match goal with |- context [when ?b ?m s] => set (blk := when b m) end.
  assert (Hio : only stable io_event blk).
  { subst blk. only_tac;
      first [apply only_play_beep | apply only_unWakeUp]; apply chimeless_io. }
  destruct (Hio s) as [Hst Hev]. split; [done|]. split; [done|].
  subst blk. unfold opening_sites.
  destruct (length _resp <? 1); [|done]. cbn [when andb].
  destruct playSFX; cbn [when].
  - rewrite value_bind, events_bind, play_beep_run.
    destruct (device_fails w (clock s)); cbn [value events final];
      [by intros [? ?]|].
    rewrite sites_app. intros _.
    destruct ttsNotXiaoai; cbn [when]; [by rewrite sites_unWakeUp | done].
  - rewrite events_bind. cbn [ret value events final]. intros _.
    destruct ttsNotXiaoai; cbn [when]; [apply sites_unWakeUp | done].
Qed.

(** Lines 186-195. *)
Lemma closing_block playSFX keepAlive _resp (st : Step) s :
  let o := (when (0 <? length _resp) (when playSFX (play_beep w)) ;;;
            when keepAlive (wakeUp w) ;;; ret st) s in
  same_options s (final o) /\ streams (final o) = streams s /\
  forallb io_event (events o) = true /\
  (value o = None \/ value o = Some st) /\
  (is_Some (value o) -> sites (events o) = closing_sites playSFX _resp).
Proof.
  cbv zeta.
  match goal with |- context [bind ?a ?b s] => set (blk := bind a b) end.
  assert (Hio : only stable io_event blk).
  { subst blk. only_tac;
      first [apply only_play_beep | apply only_wakeUp]; apply chimeless_io. }
  destruct (Hio s) as [Hst Hev].
  split; [by apply stable_same_options|]. split; [apply Hst|].
  split; [done|].
  subst blk. unfold closing_sites.
  destruct (0 <? length _resp), playSFX, keepAlive;
    cbv [when bind ret prepend andb];
    repeat (first [rewrite play_beep_run | rewrite wakeUp_run];
            match goal with
            | |- context [device_fails w ?c] => destruct (device_fails w c)
            end);
    cbn; (split; [by (left + right)|]); first [done | by intros [? ?]].
Qed.

Lemma bind_returned {A B} (m : M A) (k : A -> M B) s a s1 e1 :
  m s = Returned a s1 e1 -> bind m k s = prepend e1 (k a s1).
Proof. unfold bind. by intros ->. Qed.

Lemma bind_thrown {A B} (m : M A) (k : A -> M B) s x s1 e1 :
  m s = Thrown x s1 e1 -> bind m k s = Thrown x s1 e1.
Proof. unfold bind. by intros ->. Qed.

Lemma bind_out_of_fuel {A B} (m : M A) (k : A -> M B) s s1 e1 :
  m s = OutOfFuel s1 e1 -> bind m k s = OutOfFuel s1 e1.
Proof. unfold bind. by intros ->. Qed.

Lemma for_sentence_no_chime sentence o s :
  _response_playSFX (Options.for_sentence sentence o) s = false.
Proof. unfold _response_playSFX. cbn. apply andb_false_r. Qed.

Lemma stream_iteration_anatomy mfuel r playSFX ttsNotXiaoai keepAlive _resp s c :
  streams s !! r = Some c ->
  let reply := StreamResponse.getNextResponse c in
  let o := stream_iteration w mfuel r playSFX ttsNotXiaoai keepAlive _resp
             res_undefined s in
  exists tail,
    events o = GetNextResponse r reply.1.1 reply.1.2 :: tail
    /\ iteration_trace r playSFX _resp res_undefined reply.1.1 reply.1.2 tail
         (value o)
    /\ same_options s (final o)
    /\ (value o = Some (step_exit res_break) ->
        streams (final o) !! r = Some (StreamResponse.cancel reply.2))
    /\ (forall a b, value o = Some (step_again a b) ->
        streams (final o) !! r = Some reply.2).
Proof.
  intros Hc reply o.
  eassert (Ho : o = prepend _ _).
  { subst o. unfold stream_iteration. unfold bind at 1.
    rewrite (getNextResponse_run r s c Hc). reflexivity. }
  rewrite Ho. clear Ho o. fold reply. cbn [fst snd].
  rewrite events_prepend, value_prepend, final_prepend.
  set (s1 := set_streams _ s).
  assert (Hs1 : streams s1 !! r = Some reply.2).
  { subst s1. cbn. apply list_lookup_insert_eq. by eapply lookup_lt_Some. }
  assert (Ho1 : same_options s s1) by done.
  clearbody s1.
  eexists. split; [done|].
  destruct (truthy reply.1.1) eqn:Hx.
  - rewrite !bind_assoc.
    destruct (opening_block playSFX ttsNotXiaoai _resp s1)
      as (HstP & HioP & HsiteP).
    match type of HstP with
    | stable _ (final (?m _)) => destruct (m s1) as [[] s2 pre| e s2 pre|s2 pre] eqn:HP
    end; cbn [final events value] in *.
    + rewrite (bind_returned _ _ _ _ _ _ HP).
      rewrite events_prepend, value_prepend, final_prepend.
      rewrite bind_assoc, bind_get, bind_assoc.
      set (o' := Options.for_sentence _ _).
      assert (Htext : Options.text o' = reply.1.1).
      { subst o'. cbn. by destruct (reply.1.1) as [[|]|]. }
      destruct (_response_shape w chimeless (fun e H => H) mfuel o' s2)
        as [HstR (inner & Hin & Hev)].
      { unfold o'. by rewrite for_sentence_no_chime. }
      destruct (_response w mfuel o' s2) as [res' s3 disp| e s3 disp|s3 disp] eqn:HR;
        cbn [final events value] in *.
      * rewrite (bind_returned _ _ _ _ _ _ HR).
        rewrite events_prepend, value_prepend, final_prepend.
        assert (Hs3 : streams s3 !! r = Some reply.2).
        { by rewrite (proj1 (proj2 HstR)), (proj1 (proj2 HstP)). }
        assert (Ho3 : same_options s s3).
        { etrans; [exact Ho1|]. etrans; by apply stable_same_options. }
        destruct res'.
        -- rewrite bind_assoc, (bind_returned _ _ _ _ _ _ (cancel_run r s3 _ Hs3)).
           rewrite events_prepend, value_prepend, final_prepend.
           rewrite !bind_ret. cbn [ret events value final].
           split.
           { rewrite Hev, Htext. cbn. rewrite <- app_assoc. cbn.
             apply it_break; auto. }
           split; [done|]. split; [|done]. intros _. cbn.
           apply list_lookup_insert_eq. by eapply lookup_lt_Some.
        -- rewrite bind_ret. cbn match.
           destruct (reply.1.2) eqn:Hmore.
           ++ destruct (closing_block playSFX keepAlive
                          (_resp ++ default [] reply.1.1)
                          (step_exit res_undefined) s3)
                as (Hso & Hstr & Hio & Hval & Hsite).
              cbv zeta in *. rewrite Hev, Htext.
              split.
              { destruct Hval as [Hv|Hv]; rewrite Hv;
                  cbn [app]; rewrite <- app_assoc; cbn [app].
                - apply it_done_abort; auto.
                - apply it_done_exit; auto. }
              split; [by etrans|].
              split; [by destruct Hval as [-> | ->]|].
              by destruct Hval as [-> | ->].
           ++ rewrite bind_get. unfold bind at 1 2 3. rewrite sleep_run.
              cbn. rewrite Hev, Htext. split.
              { cbn [app]. rewrite <- app_assoc. cbn [app].
                apply it_done_again; auto. }
              split.
              { etrans; [exact Ho3|]. apply stable_same_options, stable_suspended. }
              split; [done|]. intros _ _ _.
              destruct (stable_suspended w s3) as (_ & -> & _). done.
      * rewrite (bind_thrown _ _ _ _ _ _ HR).
        cbn. rewrite app_nil_r in Hev. rewrite ?app_nil_r, Hev, Htext.
        split; [apply it_dispatch_abort; auto|].
        split; [|done].
        etrans; [exact Ho1|]. etrans; by apply stable_same_options.
      * rewrite (bind_out_of_fuel _ _ _ _ _ HR).
        cbn. rewrite app_nil_r in Hev. rewrite ?app_nil_r, Hev, Htext.
        split; [apply it_dispatch_abort; auto|].
        split; [|done].
        etrans; [exact Ho1|]. etrans; by apply stable_same_options.
    + rewrite (bind_thrown _ _ _ _ _ _ HP). cbn.
      split; [apply it_opening_abort; auto|]. split; [|done].
      etrans; [exact Ho1|]. by apply stable_same_options.
    + rewrite (bind_out_of_fuel _ _ _ _ _ HP). cbn.
      split; [apply it_opening_abort; auto|]. split; [|done].
      etrans; [exact Ho1|]. by apply stable_same_options.
  - rewrite bind_ret. destruct (reply.1.2) eqn:Hmore.
    + destruct (closing_block playSFX keepAlive _resp
                  (step_exit res_undefined) s1)
        as (Hso & Hstr & Hio & Hval & Hsite).
      cbv zeta in *. split.
      { destruct Hval as [Hv|Hv]; rewrite Hv.
        - apply it_idle_abort; auto.
        - apply it_idle_exit; auto. }
      split; [by etrans|].
      split; [by destruct Hval as [-> | ->]|].
      by destruct Hval as [-> | ->].
    + rewrite bind_get. unfold bind at 1 2 3. rewrite sleep_run. cbn.
      split; [by apply it_idle_again|].
      split.
      { etrans; [exact Ho1|]. apply stable_same_options, stable_suspended. }
      split; [done|]. intros _ _ _.
      destruct (stable_suspended w s1) as (_ & -> & _). done.
Qed.

End Iteration.

(** ** The discipline of a streaming session *)

Lemma run_phases_app r q a b :
  run_phases r q (a ++ b)
  = match run_phases r q a with
    | Some q' => run_phases r q' b
    | None => None
    end.
Proof.
  revert q. induction a as [|e a IH]; intros q; cbn; [done|].
  destruct (seq_step r q e); [apply IH | done].
Qed.

Lemma run_phases_io r q evs :
  forallb io_event evs = true -> q <> interrupted -> q <> stopped ->
  run_phases r q evs = Some q.
Proof.
  intros Hio Hq1 Hq2. induction evs as [|e evs IH]; [done|].
  cbn in Hio. apply andb_true_iff in Hio as [He Hio]. cbn.
  destruct e; try done; destruct q; try done; by apply IH.
Qed.

Lemma forallb_chimeless_io evs :
  forallb chimeless evs = true -> forallb io_event evs = true.
Proof.
  rewrite !forallb_forall. intros H e He. by apply chimeless_io, H.
Qed.

Lemma dispatched_app a b : dispatched (a ++ b) = dispatched a ++ dispatched b.
Proof. apply omap_app. Qed.

Lemma dispatched_io evs : forallb io_event evs = true -> dispatched evs = [].
Proof.
  induction evs as [|e evs IH]; [done|]. cbn.
  intros [He Hio]%andb_true_iff. unfold dispatched in *. cbn.
  rewrite (IH Hio). by destruct e.
Qed.

Lemma dispatched_get r x noMore evs :
  dispatched (GetNextResponse r x noMore :: evs) = dispatched evs.
Proof. done. Qed.

Lemma not_in_io evs e :
  forallb io_event evs = true -> io_event e = false -> ~ In e evs.
Proof.
  rewrite forallb_forall. intros H He Hin. apply H in Hin. congruence.
Qed.

Lemma truthy_default x : truthy x = true -> x = Some (default [] x).
Proof. by destruct x as [[|]|]. Qed.

Lemma pending_next c :
  StreamResponse.pending c
  = (if truthy (StreamResponse.getNextResponse c).1.1
     then [default [] (StreamResponse.getNextResponse c).1.1] else [])
    ++ StreamResponse.pending (StreamResponse.getNextResponse c).2.
Proof.
  unfold StreamResponse.pending, StreamResponse.getNextResponse.
  destruct c as [script cancelled]. cbn.
  destruct cancelled; cbn; [done|].
  destruct script as [|x rest]; cbn; [done|].
  by destruct x as [[|]|].
Qed.

(** What the traces of one iteration mean for the discipline. *)
Lemma iteration_trace_sequential r playSFX _resp x noMore tail v :
  iteration_trace r playSFX _resp res_undefined x noMore tail v ->
  let evs := GetNextResponse r x noMore :: tail in
  let chunk := if truthy x then [default [] x] else [] in
  is_Some (run_phases r ready evs)
  /\ dispatched evs `prefix_of` chunk
  /\ (In (DispatchEnd res_break) evs -> v = Some (step_exit res_break))
  /\ (forall a b, v = Some (step_again a b) ->
        run_phases r ready evs = Some ready /\ dispatched evs = chunk
        /\ ~ In (DispatchEnd res_break) evs /\ b = res_undefined).
Proof.
  intros Htrace evs chunk. subst evs chunk.
  assert (Hidle : forall post,
            truthy x = false -> forallb io_event post = true ->
            run_phases r ready (GetNextResponse r x noMore :: post)
            = Some ready).
  { intros post Hx Hpost. cbn. rewrite bool_decide_eq_true_2, Hx by done.
    by apply run_phases_io. }
  assert (Hpulled : forall pre l,
            truthy x = true -> forallb io_event pre = true ->
            run_phases r ready (GetNextResponse r x noMore :: pre ++ l)
            = run_phases r (pulled (default [] x)) l).
  { intros pre l Hx Hpre. cbn. rewrite bool_decide_eq_true_2, Hx by done.
    by rewrite run_phases_app, run_phases_io. }
  assert (Hflight : forall inner l,
            truthy x = true -> forallb chimeless inner = true ->
            run_phases r (pulled (default [] x)) (DispatchBegin x :: inner ++ l)
            = run_phases r in_flight l).
  { intros inner l Hx Hin. cbn.
    rewrite bool_decide_eq_true_2 by by apply truthy_default.
    rewrite run_phases_app, run_phases_io; try done.
    by apply forallb_chimeless_io. }
  assert (Hdisp : forall pre inner rest,
            truthy x = true -> forallb io_event pre = true ->
            forallb chimeless inner = true ->
            dispatched (GetNextResponse r x noMore
                        :: pre ++ DispatchBegin x :: inner ++ rest)
            = default [] x :: dispatched rest).
  { intros pre inner rest Hx Hpre Hin.
    change (GetNextResponse r x noMore :: ?l)
      with ([GetNextResponse r x noMore] ++ l).
    change (DispatchBegin x :: ?l) with ([DispatchBegin x] ++ l).
    rewrite !dispatched_app, (dispatched_io pre Hpre),
      (dispatched_io inner (forallb_chimeless_io _ Hin)).
    by destruct x as [[|]|]. }
  assert (Hnotin : forall pre inner,
            forallb io_event pre = true -> forallb chimeless inner = true ->
            ~ In (DispatchEnd res_break)
                (GetNextResponse r x noMore :: pre ++ DispatchBegin x :: inner)).
  { intros pre inner Hpre Hin H. cbn [In] in H. rewrite in_app_iff in H.
    cbn [In] in H. destruct H as [?|[?|[?|?]]]; try done.
    - by apply (not_in_io pre (DispatchEnd res_break)).
    - apply (not_in_io inner (DispatchEnd res_break)); try done.
      by apply forallb_chimeless_io. }
  destruct Htrace as
    [ms Hx Hm|post Hx Hm Hpost Hs|post Hx Hm Hpost|pre Hx Hpre
    |pre inner Hx Hpre Hin|pre inner Hx Hpre Hs Hin
    |pre inner ms Hx Hm Hpre Hs Hin|pre inner post Hx Hm Hpre Hs Hin Hpost Hs'
    |pre inner post Hx Hm Hpre Hin Hpost]; subst; rewrite ?Hx.
  all: try clear Htrace.
  - (* nothing delivered, more to come *)
    rewrite (Hidle [Sleep ms]) by done.
    split; [eauto|]. split; [apply prefix_nil|].
    split; [by intros [?|[?|?]]|].
    intros a b [= <- <-]. repeat split; try done. by intros [?|[?|?]].
  - rewrite (Hidle post) by done.
    split; [eauto|]. rewrite dispatched_get, (dispatched_io post) by done.
    split; [apply prefix_nil|]. split; [|done].
    intros [?|?]; [done|]. exfalso.
    by eapply (not_in_io _ (DispatchEnd res_break)).
  - rewrite (Hidle post) by done.
    split; [eauto|]. rewrite dispatched_get, (dispatched_io post) by done.
    split; [apply prefix_nil|]. split; [|done].
    intros [?|?]; [done|]. exfalso.
    by eapply (not_in_io _ (DispatchEnd res_break)).
  - rewrite <- (app_nil_r pre), Hpulled by done. cbn [run_phases].
    split; [eauto|].
    rewrite app_nil_r, dispatched_get, (dispatched_io pre) by done.
    split; [apply prefix_nil|]. split; [|done].
    intros [?|?]; [done|]. exfalso.
    by eapply (not_in_io _ (DispatchEnd res_break)).
  - rewrite <- (app_nil_r inner), Hpulled, Hflight, Hdisp by done.
    split; [by eexists|]. split; [done|]. split; [|done].
    intros Hin'. exfalso. rewrite app_nil_r in Hin'.
    exact (Hnotin pre inner Hpre Hin Hin').
  - rewrite Hpulled, Hflight, Hdisp by done.
    cbn. rewrite bool_decide_eq_true_2 by done.
    split; [eauto|]. split; [done|]. split; [done|]. done.
  - rewrite Hpulled, Hflight, Hdisp by done. cbn.
    split; [eauto|]. split; [done|].
    assert (Hno : ~ In (DispatchEnd res_break)
                      (GetNextResponse r x false
                       :: pre ++ DispatchBegin x
                       :: inner ++ [DispatchEnd res_undefined; Sleep ms])).
    { change (DispatchBegin x :: inner ++ ?l)
        with ((DispatchBegin x :: inner) ++ l).
      rewrite app_assoc, app_comm_cons, in_app_iff. cbn [In].
      intros [Hin'|[?|[?|?]]]; try done.
      exact (Hnotin pre inner Hpre Hin Hin'). }
    split; [done|].
    intros a b [= <- <-]. done.
  - rewrite Hpulled, Hflight by done.
    change (DispatchEnd res_undefined :: post)
      with ([DispatchEnd res_undefined] ++ post).
    rewrite Hdisp by done. cbn [run_phases seq_step app].
    rewrite run_phases_io by done.
    split; [eauto|].
    change (dispatched (DispatchEnd res_undefined :: post))
      with (dispatched post).
    rewrite (dispatched_io post) by done.
    split; [reflexivity|]. split; [|done].
    change (DispatchBegin x :: inner ++ ?l)
      with ((DispatchBegin x :: inner) ++ l).
    rewrite app_assoc, app_comm_cons, in_app_iff. cbn [In].
    intros [Hin'|[?|?]]; try done.
    + destruct (Hnotin pre inner Hpre Hin Hin').
    + exfalso. by apply (not_in_io post (DispatchEnd res_break)).
  - rewrite Hpulled, Hflight by done.
    change (DispatchEnd res_undefined :: post)
      with ([DispatchEnd res_undefined] ++ post).
    rewrite Hdisp by done. cbn [run_phases seq_step app].
    rewrite run_phases_io by done.
    split; [eauto|].
    change (dispatched (DispatchEnd res_undefined :: post))
      with (dispatched post).
    rewrite (dispatched_io post) by done.
    split; [reflexivity|]. split; [|done].
    change (DispatchBegin x :: inner ++ ?l)
      with ((DispatchBegin x :: inner) ++ l).
    rewrite app_assoc, app_comm_cons, in_app_iff. cbn [In].
    intros [Hin'|[?|?]]; try done.
    + destruct (Hnotin pre inner Hpre Hin Hin').
    + exfalso. by apply (not_in_io post (DispatchEnd res_break)).
Qed.

Lemma streamLoop_sequential w fuel mfuel r playSFX ttsNotXiaoai keepAlive :
  forall _resp s c,
    streams s !! r = Some c ->
    let o := streamLoop w fuel mfuel r playSFX ttsNotXiaoai keepAlive _resp
               res_undefined s in
    is_Some (run_phases r ready (events o))
    /\ dispatched (events o) `prefix_of` StreamResponse.pending c
    /\ (In (DispatchEnd res_break) (events o) ->
        value o = Some res_break /\
        exists c', streams (final o) !! r = Some c'
                   /\ StreamResponse.cancelled c' = true).
Proof.
  induction fuel as [|fuel IH]; intros _resp s c Hc; cbn [streamLoop]; cbv zeta.
  { cbn. split; [eauto|]. split; [apply prefix_nil|]. done. }
  rewrite events_bind, value_bind, final_bind.
  destruct (stream_iteration_anatomy w mfuel r playSFX ttsNotXiaoai keepAlive
              _resp s c Hc) as (tail & Hev & Htr & _ & Hcancel & Hagain).
  cbv zeta in *.
  destruct (iteration_trace_sequential _ _ _ _ _ _ _ Htr)
    as (Hrun & Hpre & Hbrk & Hag).
  cbv zeta in *. rewrite <- Hev in *. clear Hev Htr tail.
  set (reply := StreamResponse.getNextResponse c) in *.
  assert (Hchunk : (if truthy reply.1.1 then [default [] reply.1.1] else [])
                   `prefix_of` StreamResponse.pending c).
  { rewrite (pending_next c). fold reply. by apply prefix_app_r. }
  destruct (value (stream_iteration _ _ _ _ _ _ _ _ s))
    as [[res'|_resp' res']|] eqn:Hv.
  - cbn [ret events value final]. rewrite app_nil_r.
    split; [done|]. split; [by etrans|].
    intros Hin. specialize (Hbrk Hin). injection Hbrk as ->.
    split; [done|]. eexists. split; [by apply Hcancel|]. done.
  - destruct (Hag _ _ eq_refl) as (Hr & Hd & Hno & ->).
    destruct (IH _resp' _ _ (Hagain _ _ eq_refl)) as (IHa & IHb & IHc).
    cbv zeta in *.
    split; [by rewrite run_phases_app, Hr|].
    split.
    { rewrite dispatched_app, Hd, (pending_next c). fold reply.
      by apply prefix_app. }
    rewrite in_app_iff. intros [Hin|Hin]; [done|]. by apply IHc.
  - rewrite app_nil_r.
    split; [done|]. split; [by etrans|].
    intros Hin. by specialize (Hbrk Hin).
Qed.

(** C7. In a streaming session the chunks are dispatched in the cursor's
    order, one at a time: a chunk is dispatched only right after the
    cursor delivered it, and the next one is pulled only once its dispatch
    has resolved; once a dispatch resolves to interrupted the cursor is
    cancelled, the call returns interrupted, and nothing more is pulled,
    dispatched or played. *)
Theorem streaming_session_is_sequential w fuel s r c0 :
  session_ref w s = Some r ->
  streams (session_entry w s) !! r = Some c0 ->
  let o := response w fuel s in
  sequenced r (events o) = true
  /\ dispatched (events o) `prefix_of` StreamResponse.pending c0
  /\ (In (DispatchEnd res_break) (events o) ->
      value o = Some res_break /\
      exists c, streams (final o) !! r = Some c
                /\ StreamResponse.cancelled c = true).
Proof.
  intros Hr Hc0. cbv zeta. rewrite response_run.
  unfold session_body. rewrite Hr.
  match goal with |- context [streamLoop ?a1 ?a2 ?a3 ?a4 ?a5 ?a6 ?a7 ?a8 ?a9 ?st] =>
    destruct (streamLoop_sequential a1 a2 a3 a4 a5 a6 a7 a8 st c0 Hc0)
      as (Ha & Hb & Hc);
    destruct (streamLoop a1 a2 a3 a4 a5 a6 a7 a8 a9 st)
      as [res s3 evs|err s3 evs|s3 evs]
  end; cbn [events value final] in *.
  - split.
    { unfold sequenced. apply bool_decide_eq_true. cbn.
      rewrite run_phases_app. destruct Ha as [q ->]. cbn. eauto. }
    split.
    { change (SetResponding true :: evs ++ [SetResponding false])
        with ([SetResponding true] ++ evs ++ [SetResponding false]).
      rewrite !dispatched_app. cbn. by rewrite app_nil_r. }
    cbn [In]. rewrite in_app_iff. cbn [In].
    intros [?|[Hin|[?|?]]]; try done. by apply Hc.
  - split; [unfold sequenced; by apply bool_decide_eq_true|].
    split; [done|]. intros [?|Hin]; [done|]. by apply Hc.
  - split; [unfold sequenced; by apply bool_decide_eq_true|].
    split; [done|]. intros [?|Hin]; [done|]. by apply Hc.
Qed.

Lemma streaming_session_is_sequential_witness :
  sequenced 0
    (events (response Scenario.calm 3
               (Scenario.start Scenario.speaker0
                  (Scenario.impatient Requests.hello_world)))) = true
  /\ dispatched
       (events (response Scenario.calm 3
                  (Scenario.start Scenario.speaker0
                     (Scenario.impatient Requests.hello_world))))
     = [js "Hello."]
  /\ value (response Scenario.calm 3
              (Scenario.start Scenario.speaker0
                 (Scenario.impatient Requests.hello_world)))
     = Some res_break.
Proof.
  destruct (streaming_session_is_sequential Scenario.calm 3
              (Scenario.start Scenario.speaker0
                 (Scenario.impatient Requests.hello_world))
              0 _ eq_refl eq_refl) as (H1 & _ & H3).
  split; [exact H1|]. split; [reflexivity|].
  apply H3. vm_compute. tauto.
Defined.

(** ** The boundary chime *)

Lemma sites_chimeless evs :
  forallb chimeless evs = true -> exists k, sites evs = repeat reply k.
Proof.
  induction evs as [|e evs IH]; [by exists 0|].
  cbn. intros [He Hevs]%andb_true_iff. destruct (IH Hevs) as [k Hk].
  unfold sites in *. cbn. rewrite Hk.
  destruct e as [[[] ?| | |[] ? ?| ]| | | | | | | |]; try done;
    first [by exists k | by exists (S k)].
Qed.

Lemma sites_io_cons e evs :
  site_of e = None -> sites (e :: evs) = sites evs.
Proof. unfold sites. cbn. by intros ->. Qed.

Lemma produced_get r x noMore evs :
  produced (GetNextResponse r x noMore :: evs) = truthy x || produced evs.
Proof. done. Qed.

Lemma sites_get r x noMore evs :
  sites (GetNextResponse r x noMore :: evs) = sites evs.
Proof. done. Qed.

Lemma produced_begin x evs : produced (DispatchBegin x :: evs) = produced evs.
Proof. done. Qed.

Lemma sites_begin x evs : sites (DispatchBegin x :: evs) = sites evs.
Proof. done. Qed.

Lemma produced_end x evs : produced (DispatchEnd x :: evs) = produced evs.
Proof. done. Qed.

Lemma sites_end x evs : sites (DispatchEnd x :: evs) = sites evs.
Proof. done. Qed.

Lemma produced_app a b : produced (a ++ b) = produced a || produced b.
Proof. apply existsb_app. Qed.

Lemma produced_io evs : forallb io_event evs = true -> produced evs = false.
Proof.
  induction evs as [|e evs IH]; [done|]. unfold produced in *. cbn.
  intros [He Hevs]%andb_true_iff. rewrite (IH Hevs). by destruct e.
Qed.

Lemma produced_chimeless evs :
  forallb chimeless evs = true -> produced evs = false.
Proof. intros H. by apply produced_io, forallb_chimeless_io. Qed.

Lemma length_said _resp x :
  truthy x = true ->
  (length (_resp ++ default [] x) <? 1) = false
  /\ (0 <? length (_resp ++ default [] x)) = true.
Proof.
  destruct x as [[|c t]|]; try done. intros _.
  change (default [] (Some (c :: t))) with (c :: t).
  rewrite length_app. cbn [length]. split.
  - apply Nat.ltb_ge. lia.
  - apply Nat.ltb_lt. lia.
Qed.

(** What the traces of one iteration that ended mean for the chime. *)
Lemma iteration_trace_sites r playSFX _resp x noMore tail st :
  iteration_trace r playSFX _resp res_undefined x noMore tail (Some st) ->
  let evs := GetNextResponse r x noMore :: tail in
  let said := if truthy x then _resp ++ default [] x else _resp in
  let opening := if truthy x then opening_sites playSFX _resp else [] in
  produced evs = truthy x
  /\ exists k,
       match st with
       | step_again _resp' res' =>
           sites evs = opening ++ repeat reply k
           /\ _resp' = said /\ res' = res_undefined
           /\ (truthy x = false -> k = 0)
       | step_exit res_break =>
           truthy x = true /\ sites evs = opening ++ repeat reply k
       | step_exit res_undefined =>
           sites evs = opening ++ repeat reply k
                       ++ closing_sites playSFX said
       end.
Proof.
  intros Htrace. cbv zeta.
  remember (Some st) as v eqn:Hv.
  destruct Htrace as
    [ms Hx Hm|post Hx Hm Hpost Hs|post Hx Hm Hpost|pre Hx Hpre
    |pre inner Hx Hpre Hin|pre inner Hx Hpre Hs Hin
    |pre inner ms Hx Hm Hpre Hs Hin|pre inner post Hx Hm Hpre Hs Hin Hpost Hs'
    |pre inner post Hx Hm Hpre Hin Hpost]; try done;
    injection Hv as <-; rewrite ?Hx, produced_get, sites_get, ?Hx;
    rewrite ?produced_app, ?sites_app, ?produced_begin, ?sites_begin,
      ?produced_app, ?sites_app, ?produced_end, ?sites_end;
    rewrite ?(produced_io pre), ?(produced_io post),
      ?(produced_chimeless inner) by done.
  - split; [done|]. by exists 0.
  - split; [done|]. exists 0. by rewrite Hs.
  - destruct (sites_chimeless inner Hin) as [k ->].
    split; [done|]. exists k. split; [done|]. by rewrite Hs, app_nil_r.
  - destruct (sites_chimeless inner Hin) as [k ->].
    split; [done|]. exists k. split; [|done]. by rewrite Hs, app_nil_r.
  - destruct (sites_chimeless inner Hin) as [k ->].
    split; [done|]. exists k. by rewrite Hs, Hs'.
Qed.

Lemma nonempty_ltb (l : JsString) : (0 <? length l) = negb (length l <? 1).
Proof. by destruct l. Qed.

Lemma streamLoop_sites w fuel mfuel r playSFX ttsNotXiaoai keepAlive :
  forall _resp s c v,
    streams s !! r = Some c ->
    value (streamLoop w fuel mfuel r playSFX ttsNotXiaoai keepAlive _resp
             res_undefined s) = Some v ->
    let evs := events (streamLoop w fuel mfuel r playSFX ttsNotXiaoai
                         keepAlive _resp res_undefined s) in
    exists k,
      sites evs
      = (if (length _resp <? 1) && playSFX && produced evs
         then [boundary_chime] else [])
        ++ repeat reply k
        ++ (if playSFX && (negb (length _resp <? 1) || produced evs)
               && match v with res_break => false | res_undefined => true end
            then [boundary_chime] else []).
Proof.
  induction fuel as [|fuel IH]; intros _resp s c v Hc; cbn [streamLoop];
    [done|].
  cbv zeta. rewrite events_bind, value_bind.
  destruct (stream_iteration_anatomy w mfuel r playSFX ttsNotXiaoai keepAlive
              _resp s c Hc) as (tail & Hev & Htr & _ & _ & Hagain).
  cbv zeta in *.
  destruct (value (stream_iteration _ _ _ _ _ _ _ _ s)) as [st|] eqn:Hv;
    [|done].
  destruct (iteration_trace_sites _ _ _ _ _ _ _ Htr) as (Hprod & k & Hst).
  cbv zeta in *. rewrite <- Hev in *. clear Hev Htr tail.
  set (x := (StreamResponse.getNextResponse c).1.1) in *.
  unfold opening_sites, closing_sites in Hst.
  destruct st as [res'|_resp' res'].
  - cbn [ret events value final]. intros [= ->]. rewrite app_nil_r, Hprod.
    destruct v.
    + destruct Hst as [Hx ->]. rewrite Hx. exists k.
      destruct (length _resp <? 1), playSFX; cbn; by rewrite ?app_nil_r.
    + rewrite Hst. exists k. rewrite nonempty_ltb.
      destruct (truthy x) eqn:Hx.
      * destruct (length_said _resp x Hx) as [-> _].
        destruct (length _resp <? 1), playSFX; cbn; by rewrite ?app_nil_r.
      * destruct (length _resp <? 1), playSFX; cbn; by rewrite ?app_nil_r.
  - destruct Hst as (Hs & -> & -> & Hk).
    intros Hrest.
    destruct (IH _ _ _ v (Hagain _ _ eq_refl) Hrest) as [k' IHs].
    cbv zeta in IHs. rewrite sites_app, produced_app, Hprod, Hs, IHs.
    exists (k + k'). rewrite repeat_app.
    destruct (truthy x) eqn:Hx.
    + destruct (length_said _resp x Hx) as [-> _].
      destruct (length _resp <? 1), playSFX, (produced _), v; cbn;
        by rewrite <- ?app_assoc, ?app_nil_r.
    + rewrite (Hk eq_refl).
      destruct (length _resp <? 1), playSFX, (produced _), v; cbn;
        by rewrite <- ?app_assoc, ?app_nil_r.
Qed.

Lemma streamLoop_dangling w fuel mfuel r playSFX ttsNotXiaoai keepAlive _resp res s :
  streams s !! r = None ->
  value (streamLoop w fuel mfuel r playSFX ttsNotXiaoai keepAlive _resp res s)
  = None.
Proof.
  intros Hr. destruct fuel; [done|]. cbn [streamLoop].
  rewrite value_bind. unfold stream_iteration. rewrite value_bind.
  unfold getNextResponse. by rewrite bind_get, Hr.
Qed.

Lemma filter_chime_replies k : List.filter is_chime_site (repeat reply k) = [].
Proof. by induction k. Qed.

(** With the vendor endpoint configured, a request that [response] does
    not turn into a stream is dispatched without a chime. *)
Lemma direct_dispatch_is_chimeless w s :
  truthy (TTS_DOUBAO w) = true ->
  session_ref w s = None ->
  response_ttsNotXiaoai w s = false
  /\ _response_playSFX (options (session_entry w s)) (session_entry w s) = false.
Proof.
  intros Henv Hr. unfold session_ref in Hr.
  destruct (Options.stream (options s)) eqn:Hs; [done|].
  destruct (response_ttsNotXiaoai w s) eqn:Hn; [done|]. split; [done|].
  unfold _response_playSFX, _response_ttsNotXiaoai, _response_tts.
  rewrite options_session_entry, session_entry_this.
  unfold response_ttsNotXiaoai, response_tts in Hn.
  rewrite Hs, Henv in Hn. cbn in Hn.
  unfold assign_default_hasNewMsg.
  destruct (Options.hasNewMsg (options s)); cbn; rewrite Hs; cbn;
    by rewrite Hn.
Qed.

(** C2 (amended). With the vendor endpoint configured, for every call of
    [response] that returns: the boundary chime is played iff the
    effective provider is not the native TTS, the payload is a text or a
    stream and no raw audio URL, the caller asked for the chime, and the
    cursor produced at least one chunk; whether a chime URL is configured
    plays no part.  When it is played it is played once before the first
    playback, and once more after the last one unless the response was
    interrupted, in which case there is no closing chime. *)
Theorem chime_policy w fuel s res :
  truthy (TTS_DOUBAO w) = true ->
  value (response w fuel s) = Some res ->
  let warranted :=
    response_ttsNotXiaoai w s
    && default true (Options.playSFX (options s)) in
  let evs := events (response w fuel s) in
  (exists k,
     sites evs
     = if warranted && produced evs
       then boundary_chime :: repeat reply k
            ++ match res with
               | res_break => []
               | res_undefined => [boundary_chime]
               end
       else repeat reply k)
  /\ chimes evs
     = if warranted && produced evs
       then match res with res_break => 1 | res_undefined => 2 end
       else 0.
Proof.
  intros Henv Hres warranted evs.
  assert (Hsites : exists k,
            sites evs
            = if warranted && produced evs
              then boundary_chime :: repeat reply k
                   ++ match res with
                      | res_break => []
                      | res_undefined => [boundary_chime]
                      end
              else repeat reply k).
  { subst evs warranted. rewrite response_run in *.
    unfold session_body in *.
    destruct (session_ref w s) as [r|] eqn:Hr.
    - destruct (streams (session_entry w s) !! r) as [c0|] eqn:Hc0.
      + match type of Hres with
        | context [streamLoop ?a1 ?a2 ?a3 ?a4 ?a5 ?a6 ?a7 ?a8 ?a9 ?st] =>
            pose proof (streamLoop_sites a1 a2 a3 a4 a5 a6 a7 a8 st c0 res Hc0)
              as Hloop;
            destruct (streamLoop a1 a2 a3 a4 a5 a6 a7 a8 a9 st)
              as [res' s3 evs|err s3 evs|s3 evs]
        end; try done.
        cbn [value events] in *. injection Hres as ->.
        destruct (Hloop eq_refl) as [k Hk]. exists k.
        change (SetResponding true :: evs ++ [SetResponding false])
          with ([SetResponding true] ++ evs ++ [SetResponding false]).
        rewrite !sites_app, !produced_app, Hk. cbn.
        rewrite !app_nil_r, orb_false_r.
        destruct (_ && _), (produced evs), res; cbn; by rewrite ?app_nil_r.
      + match type of Hres with
        | context [streamLoop ?a1 ?a2 ?a3 ?a4 ?a5 ?a6 ?a7 ?a8 ?a9 ?st] =>
            pose proof (streamLoop_dangling a1 a2 a3 a4 a5 a6 a7 a8 a9 st Hc0)
              as Hloop;
            destruct (streamLoop a1 a2 a3 a4 a5 a6 a7 a8 a9 st)
        end; done.
    - destruct (direct_dispatch_is_chimeless w s Henv Hr) as [-> Hsfx].
      destruct (_response_shape w chimeless (fun e H => H) fuel
                  (options (session_entry w s)) (session_entry w s))
        as [_ (inner & Hin & Hev)]; [by rewrite Hsfx|].
      destruct (_response w fuel _ (session_entry w s))
        as [res' s3 evs|err s3 evs|s3 evs]; try done.
      cbn [value events] in *. rewrite Hev.
      destruct (sites_chimeless inner Hin) as [k Hk]. exists k.
      change (SetResponding true :: ?l) with ([SetResponding true] ++ l).
      change (DispatchBegin ?t :: ?l) with ([DispatchBegin t] ++ l).
      rewrite !sites_app, Hk. cbn. by rewrite !app_nil_r. }
  split; [done|].
  destruct Hsites as [k Hk]. unfold chimes. rewrite Hk.
  destruct (warranted && produced evs).
  - cbn. rewrite filter_app, filter_chime_replies. by destruct res.
  - by rewrite filter_chime_replies.
Qed.

Lemma chime_policy_witness :
  sites (events (response Scenario.calm 3
                   (Scenario.start Scenario.speaker0 Requests.hello_world)))
  = [boundary_chime; reply; reply; boundary_chime]
  /\ chimes (events (response Scenario.calm 3
                       (Scenario.start Scenario.speaker0 Requests.hello_world)))
     = 2.
Proof.
  split; [reflexivity|].
  apply (chime_policy Scenario.calm 3
           (Scenario.start Scenario.speaker0 Requests.hello_world)
           res_undefined); reflexivity.
Defined.

(** C2 as stated fails: every condition of the claim holds (vendor
    provider in effect, text payload, chime requested, a chunk produced),
    the chime is played before the first playback, and it is not played
    after the last one, because the response was interrupted. *)
Lemma interrupted_response_has_no_closing_chime :
  response_ttsNotXiaoai Scenario.calm
    (Scenario.start Scenario.speaker0
       (Scenario.impatient Requests.hello_world)) = true
  /\ produced
       (events (response Scenario.calm 3
                  (Scenario.start Scenario.speaker0
                     (Scenario.impatient Requests.hello_world)))) = true
  /\ value (response Scenario.calm 3
              (Scenario.start Scenario.speaker0
                 (Scenario.impatient Requests.hello_world)))
     = Some res_break
  /\ sites
       (events (response Scenario.calm 3
                  (Scenario.start Scenario.speaker0
                     (Scenario.impatient Requests.hello_world))))
     = [boundary_chime; reply]
  /\ chimes
       (events (response Scenario.calm 3
                  (Scenario.start Scenario.speaker0
                     (Scenario.impatient Requests.hello_world))))
     <> 2.
Proof. repeat split; try reflexivity. discriminate. Qed.

(** ** A blank text under the vendor provider, whatever the segmentation *)

Lemma wakeUp_calls_device w s :
  exists c, In (Device c) (events (wakeUp w s)).
Proof.
  rewrite wakeUp_run. destruct (device_fails w (clock s)); cbn; eauto.
Qed.

Lemma play_beep_calls_device w s :
  exists c, In (Device c) (events (play_beep w s)).
Proof.
  rewrite play_beep_run. destruct (device_fails w (clock s)); cbn; eauto.
Qed.

Lemma device_calls_in evs c : In (Device c) evs -> device_calls evs <> [].
Proof.
  induction evs as [|e evs IH]; [done|].
  intros [->|Hin]; [done|]. unfold device_calls in *. cbn.
  destruct e; try done; by apply IH.
Qed.

(** A stream entered with the chime and keep-awake requested reaches the
    device as soon as the cursor delivers a chunk or reports the end. *)
Lemma streamLoop_calls_device w mfuel r ttsNotXiaoai :
  forall script fuel s,
    streams s !! r = Some (StreamResponse.mk script false) ->
    length script < fuel ->
    exists c,
      In (Device c)
        (events (streamLoop w fuel mfuel r true ttsNotXiaoai true []
                   res_undefined s)).
Proof.
  induction script as [|x rest IH]; intros fuel s Hc Hfuel;
    (destruct fuel as [|fuel]; [cbn in Hfuel; lia|]);
    cbn [streamLoop]; rewrite events_bind; unfold stream_iteration;
    rewrite (bind_returned _ _ _ _ _ _ (getNextResponse_run r s _ Hc));
    rewrite events_prepend, value_prepend, final_prepend;
    cbn [StreamResponse.getNextResponse StreamResponse.cancelled
           StreamResponse.script fst snd].
  - cbn [truthy]. rewrite bind_ret. cbn [length Nat.ltb Nat.leb when].
    rewrite bind_ret, events_bind.
    destruct (wakeUp_calls_device w
                (set_streams (fun h => <[r := StreamResponse.mk [] false]> h) s))
      as [c Hin].
    exists c. rewrite !in_app_iff. cbn [when]. auto.
  - destruct (truthy x) eqn:Hx.
    + cbn [length Nat.ltb Nat.leb when].
      rewrite !bind_assoc, events_bind.
      match goal with
      | |- context [events (play_beep w ?st)] =>
          destruct (play_beep_calls_device w st) as [c Hin]
      end.
      exists c. rewrite !in_app_iff. auto.
    + rewrite bind_ret.
      destruct rest as [|y rest].
      * rewrite bool_decide_eq_true_2 by done.
        cbn [length Nat.ltb Nat.leb when].
        rewrite bind_ret, events_bind.
        match goal with
        | |- context [events (wakeUp w ?st)] =>
            destruct (wakeUp_calls_device w st) as [c Hin]
        end.
        exists c. rewrite !in_app_iff. cbn [when]. auto.
      * rewrite bool_decide_eq_false_2 by done.
        rewrite bind_get, (bind_returned _ _ _ _ _ _ (sleep_run w _ _)).
        cbn [prepend ret events value final app].
        match goal with
        | |- context [streamLoop w fuel mfuel r true ttsNotXiaoai true [] res_undefined ?st] =>
            destruct (IH fuel st) as [c Hin]
        end.
        { unfold suspended. cbn. apply list_lookup_insert_eq.
          by eapply lookup_lt_Some. }
        { cbn in *. lia. }
        exists c. rewrite ?in_app_iff. cbn [In]. auto.
Qed.

(** The failure of C8 does not depend on how the text is cut into chunks:
    with the vendor endpoint configured, the blank request with keep-awake
    reaches the device for every segmentation. *)
Lemma blank_text_reaches_the_device_for_every_segment w fuel :
  truthy (TTS_DOUBAO w) = true ->
  length (segment w (js " ")) < fuel ->
  device_calls
    (events (response w fuel
               (Scenario.start Scenario.speaker0 Requests.blank_keep_alive)))
  <> [].
Proof.
  intros Henv Hfuel.
  set (s := Scenario.start Scenario.speaker0 Requests.blank_keep_alive).
  assert (Hn : response_ttsNotXiaoai w s = true).
  { unfold response_ttsNotXiaoai, response_tts. by rewrite Henv. }
  assert (Hin : exists c, In (Device c) (events (response w fuel s))).
  { rewrite response_run. unfold session_body, session_ref.
    cbn [s Scenario.start options Requests.blank_keep_alive Options.stream].
    rewrite Hn.
    assert (Hc0 : streams (session_entry w s) !! length (streams s)
                  = Some (StreamResponse.mk (map Some (segment w (js " ")))
                            false)).
    { unfold session_entry. rewrite Hn. reflexivity. }
    destruct (streamLoop_calls_device w fuel (length (streams s)) true
                (map Some (segment w (js " "))) fuel (session_entry w s) Hc0)
      as [c Hin]; [by rewrite length_map|].
    exists c.
    match goal with
    | |- context [streamLoop ?a1 ?a2 ?a3 ?a4 ?a5 ?a6 ?a7 ?a8 ?a9 ?st] =>
        change (streamLoop a1 a2 a3 a4 a5 a6 a7 a8 a9 st)
          with (streamLoop w fuel fuel (length (streams s)) true true true []
                  res_undefined (session_entry w s))
    end.
    destruct (streamLoop w fuel fuel (length (streams s)) true true true []
                res_undefined (session_entry w s));
      cbn [events In] in *; rewrite ?in_app_iff; auto. }
  destruct Hin as [c Hin]. by apply (device_calls_in _ c).
Qed.
